(** * Hiring-decision extraction and score reconciliation

    A shallow embedding of [parse_hiring_decision] from
    [backend/app/main.py], together with the fragments of the Python
    runtime it relies on: [str] methods, the [re] patterns it searches
    for, [int()], binary64 arithmetic, [round(x, 2)] and
    [random.randint].

    Text is modelled by [string]: a sequence of code points below 256.
    On that range [str.lower], [str.isspace], [\s], [\d] and
    case-insensitive matching of ASCII letters behave as written below.
    Calls to [logger] do not influence the returned value and are left
    out. *)

From Stdlib Require Import ZArith NArith List Bool Ascii String Lia.
From Stdlib Require Import Floats.SpecFloat.
Import ListNotations.

Local Open Scope string_scope.
Local Open Scope Z_scope.

(** ** Python strings *)

Module PyStr.

Definition code (c : ascii) : N := N_of_ascii c.

Definition in_range (lo hi : N) (c : ascii) : bool :=
  ((lo <=? code c) && (code c <=? hi))%N.

(** [str.isspace] on one character, which is also what [\s] matches. *)
Definition isspace (c : ascii) : bool :=
  in_range 9 13 c || in_range 28 32 c || (code c =? 133)%N || (code c =? 160)%N.

(** [str.isdecimal] on one character, which is what [\d] matches. *)
Definition isdigit (c : ascii) : bool := in_range 48 57 c.

Definition isupper (c : ascii) : bool :=
  in_range 65 90 c || (in_range 192 222 c && negb (code c =? 215)%N).

Definition lower_char (c : ascii) : ascii :=
  if isupper c then ascii_of_N (code c + 32) else c.

(** [s.lower()] *)
Fixpoint lower (s : string) : string :=
  match s with
  | EmptyString => EmptyString
  | String c s' => String (lower_char c) (lower s')
  end.

(** [needle in hay] *)
Fixpoint contains (needle hay : string) : bool :=
  if prefix needle hay then true
  else match hay with
       | EmptyString => false
       | String _ hay' => contains needle hay'
       end.

Fixpoint take (n : nat) (s : string) : string :=
  match n, s with
  | S n', String c s' => String c (take n' s')
  | _, _ => EmptyString
  end.

(** [s.replace(old, new)] for a non-empty [old]: occurrences are
    replaced left to right and do not overlap; [skip] counts the
    characters of a replaced occurrence that are still to be passed. *)
Fixpoint replace_from (old new : string) (skip : nat) (s : string) : string :=
  match s with
  | EmptyString => EmptyString
  | String c s' =>
      match skip with
      | S k => replace_from old new k s'
      | O =>
          if prefix old s
          then new ++ replace_from old new (Nat.pred (length old)) s'
          else String c (replace_from old new O s')
      end
  end.

Definition replace (old new s : string) : string := replace_from old new O s.

Fixpoint lstrip (s : string) : string :=
  match s with
  | String c s' => if isspace c then lstrip s' else s
  | EmptyString => EmptyString
  end.

Fixpoint rstrip (s : string) : string :=
  match s with
  | EmptyString => EmptyString
  | String c s' =>
      match rstrip s' with
      | EmptyString => if isspace c then EmptyString else String c EmptyString
      | r => String c r
      end
  end.

(** [s.strip()] *)
Definition strip (s : string) : string := rstrip (lstrip s).

Fixpoint all_chars (p : ascii -> bool) (s : string) : bool :=
  match s with
  | EmptyString => true
  | String c s' => p c && all_chars p s'
  end.

Fixpoint repeat_char (c : ascii) (n : nat) : string :=
  match n with
  | O => EmptyString
  | S n' => String c (repeat_char c n')
  end.

End PyStr.

(** ** Exceptions and the random generator

    The function draws from the module-level generator of [random] and
    wraps its body in [try ... except Exception].  Both effects are
    threaded through one monad: a computation takes the generator state
    and returns either a value or a raised exception, with the state it
    leaves behind. *)

Module Py.

Inductive exn : Type :=
| ValueError
| AttributeError
| TypeError.

Inductive outcome (A : Type) : Type :=
| Ok (a : A)
| Raise (e : exn).

Arguments Ok {A} a.
Arguments Raise {A} e.

(** The generator state: the raw draws still to come.  [randint] maps
    a raw draw into the requested interval, so every value of the
    interval can be produced and nothing else. *)
Definition rng : Type := list Z.

Definition M (A : Type) : Type := rng -> outcome A * rng.

Definition ret {A} (a : A) : M A := fun g => (Ok a, g).

Definition bind {A B} (m : M A) (f : A -> M B) : M B :=
  fun g =>
    match m g with
    | (Ok a, g') => f a g'
    | (Raise e, g') => (Raise e, g')
    end.

(** [try: body except Exception: handler] *)
Definition try_except {A} (body : M A) (handler : exn -> M A) : M A :=
  fun g =>
    match body g with
    | (Ok a, g') => (Ok a, g')
    | (Raise e, g') => handler e g'
    end.

Definition lift {A} (o : outcome A) : M A := fun g => (o, g).

(** [random.randint(a, b)], for [a <= b] *)
Definition randint (a b : Z) : M Z :=
  fun g =>
    match g with
    | [] => (Ok a, [])
    | x :: g' => (Ok (a + x mod (b - a + 1)), g')
    end.

End Py.

Import Py.

Declare Scope py_scope.
Delimit Scope py_scope with py.
Notation "x <- m ;; k" := (bind m (fun x => k))
  (at level 61, m at next level, right associativity) : py_scope.

(** ** [int()] on a captured digit run *)

Module PyInt.
Import PyStr.

(** [sys.int_info.str_digits_check_threshold] *)
Definition str_digits_check_threshold : nat := 640.

(** [sys.int_info.default_max_str_digits] *)
Definition default_max_str_digits : nat := 4300.

Fixpoint digits_value (acc : Z) (s : string) : Z :=
  match s with
  | EmptyString => acc
  | String c s' => digits_value (10 * acc + Z.of_N (code c - 48)) s'
  end.

(** Whether a run of [n] digits is refused under the interpreter's
    limit [max_str_digits] (0 switches the limit off). *)
Definition too_many_digits (max_str_digits n : nat) : bool :=
  (str_digits_check_threshold <? n)%nat
  && (0 <? max_str_digits)%nat && (max_str_digits <? n)%nat.

(** [int(s)] for the strings the score pattern can capture.  Anything
    but a non-empty run of decimal digits is a [ValueError] here; signs,
    underscores and surrounding blanks, which [int] also accepts, cannot
    occur in a [\d+] capture.  A run longer than the interpreter's limit
    is a [ValueError] as well. *)
Definition py_int (max_str_digits : nat) (s : string) : outcome Z :=
  match s with
  | EmptyString => Raise ValueError
  | _ =>
      if negb (all_chars isdigit s) then Raise ValueError
      else if too_many_digits max_str_digits (length s) then Raise ValueError
      else Ok (digits_value 0 s)
  end.

End PyInt.

(** ** The fragment of [re] used by the patterns *)

Module Re.
Import PyStr.

(** One-character matchers. *)
Inductive cset : Type :=
| CLit (c : ascii)   (* a literal character *)
| CSpace             (* \s *)
| CDigit             (* \d *)
| CAny.              (* . *)

Inductive regex : Type :=
| REps
| RChar (c : cset)
| RStar (c : cset) (greedy : bool)   (* c* when greedy, c*? otherwise *)
| RSeq (r1 r2 : regex)
| RAlt (r1 r2 : regex)
| RGroup (n : nat) (r : regex)       (* the n-th capturing group *)
| REnd.                              (* $ *)

Record flags : Type := { ignorecase : bool; dotall : bool }.

Definition re_I : flags := {| ignorecase := true; dotall := false |}.
Definition re_DOTALL : flags := {| ignorecase := false; dotall := true |}.

Definition newline : ascii := ascii_of_N 10.

Definition cmatch (fl : flags) (c : cset) (a : ascii) : bool :=
  match c with
  | CLit x =>
      if ignorecase fl then Ascii.eqb (lower_char x) (lower_char a)
      else Ascii.eqb x a
  | CSpace => isspace a
  | CDigit => isdigit a
  | CAny => dotall fl || negb (Ascii.eqb a newline)
  end.

(** [$] without [re.MULTILINE]: the end of the string, or just before a
    newline that ends the string. *)
Definition at_end (s : string) : bool :=
  match s with
  | EmptyString => true
  | String a EmptyString => Ascii.eqb a newline
  | _ => false
  end.

(** Captured groups, most recent first. *)
Definition captures : Type := list (nat * string).

Fixpoint group (n : nat) (m : captures) : option string :=
  match m with
  | [] => None
  | (k, v) :: m' => if Nat.eqb k n then Some v else group n m'
  end.

(** Backtracking match of [r] at the start of [s]; [k] is what must
    match afterwards.  Alternatives are tried left to right, a greedy
    star tries the longest run first and a lazy one the shortest. *)
Fixpoint rmatch (fl : flags) (r : regex) (s : string) (m : captures)
  (k : string -> captures -> option captures) {struct r} : option captures :=
  match r with
  | REps => k s m
  | RChar c =>
      match s with
      | String a s' => if cmatch fl c a then k s' m else None
      | EmptyString => None
      end
  | RStar c greedy =>
      (fix star (s : string) : option captures :=
         match s with
         | String a s' =>
             if cmatch fl c a
             then if greedy
                  then match star s' with
                       | Some m' => Some m'
                       | None => k s m
                       end
                  else match k s m with
                       | Some m' => Some m'
                       | None => star s'
                       end
             else k s m
         | EmptyString => k s m
         end) s
  | RSeq r1 r2 => rmatch fl r1 s m (fun s' m' => rmatch fl r2 s' m' k)
  | RAlt r1 r2 =>
      match rmatch fl r1 s m k with
      | Some m' => Some m'
      | None => rmatch fl r2 s m k
      end
  | RGroup n r =>
      rmatch fl r s m
        (fun s' m' => k s' ((n, take (length s - length s') s) :: m'))
  | REnd => if at_end s then k s m else None
  end.

Definition match_here (fl : flags) (r : regex) (s : string) : option captures :=
  rmatch fl r s [] (fun _ m => Some m).

(** [re.search(r, s, flags)]: the leftmost position where [r] matches. *)
Fixpoint search (fl : flags) (r : regex) (s : string) : option captures :=
  match match_here fl r s with
  | Some m => Some m
  | None =>
      match s with
      | String _ s' => search fl r s'
      | EmptyString => None
      end
  end.

(** Pattern builders. *)
Fixpoint lit (w : string) : regex :=
  match w with
  | EmptyString => REps
  | String c w' => RSeq (RChar (CLit c)) (lit w')
  end.

Fixpoint seq (rs : list regex) : regex :=
  match rs with
  | [] => REps
  | r :: rs' => RSeq r (seq rs')
  end.

Definition spaces : regex := RStar CSpace true.            (* \s* *)
Definition digits : regex := RSeq (RChar CDigit) (RStar CDigit true).  (* \d+ *)

End Re.

(** ** Python numbers: [int] and binary64 [float] *)

Module PyNum.

Definition prec : Z := 53.
Definition emax : Z := 1024.

Definition float : Type := spec_float.

Definition fadd : float -> float -> float := SFadd prec emax.
Definition fsub : float -> float -> float := SFsub prec emax.
Definition fmul : float -> float -> float := SFmul prec emax.
Definition fdiv : float -> float -> float := SFdiv prec emax.
Definition fabs : float -> float := SFabs.
Definition fcompare : float -> float -> option comparison := SFcompare.

(** [float(z)]: the nearest binary64 value, exact below 2^53. *)
Definition float_of_int (z : Z) : float := binary_normalize prec emax z 0 false.

(** The literals [0.4] = 0x1.999999999999ap-2 and
    [0.3] = 0x1.3333333333333p-2. *)
Definition lit_0_4 : float := S754_finite false 7205759403792794 (-54).
Definition lit_0_3 : float := S754_finite false 5404319552844595 (-54).

(** [a / b] rounded to the nearest integer, ties to even, for [b > 0]. *)
Definition div_half_even (a b : Z) : Z :=
  let q := a / b in
  match 2 * (a mod b) ?= b with
  | Lt => q
  | Gt => q + 1
  | Eq => if Z.even q then q else q + 1
  end.

(** [round(x, 2)]: the exact value of [x] is rounded to two decimals,
    ties to even, and the decimal result is converted back to the
    nearest binary64 value.  Integral values, infinities and NaN are
    returned as they are. *)
Definition round2 (x : float) : float :=
  match x with
  | S754_finite s m (Zneg p) =>
      match div_half_even (100 * Zpos m) (Z.pow_pos 2 p) with
      | Zpos n => fdiv (S754_finite s n 0) (S754_finite false 100 0)
      | _ => S754_zero s
      end
  | _ => x
  end.

(** A value stored in the [scores] dictionary. *)
Inductive num : Type :=
| PyInt (z : Z)
| PyFloat (f : float).

Definition to_float (x : num) : float :=
  match x with
  | PyInt z => float_of_int z
  | PyFloat f => f
  end.

(** [abs(a - b) > 1] *)
Definition differs_by_more_than_1 (a b : num) : bool :=
  match fcompare (fabs (fsub (to_float a) (to_float b))) (float_of_int 1) with
  | Some Gt => true
  | _ => false
  end.

(** [a == b] on numbers *)
Definition num_eqb (a b : num) : bool :=
  match a, b with
  | PyInt x, PyInt y => Z.eqb x y
  | _, _ =>
      match fcompare (to_float a) (to_float b) with
      | Some Eq => true
      | _ => false
      end
  end.

(** The value is a whole number ([float.is_integer] on a float). *)
Definition is_integral (x : num) : bool :=
  match x with
  | PyInt _ => true
  | PyFloat (S754_zero _) => true
  | PyFloat (S754_finite _ m (Zneg p)) => Zpos m mod Z.pow_pos 2 p =? 0
  | PyFloat (S754_finite _ _ _) => true
  | PyFloat _ => false
  end.

End PyNum.

(** ** [parse_hiring_decision] *)

Module Main.
Import PyStr PyInt Re PyNum.

Record Scores : Type := {
  technical_depth : Z;
  communication : Z;
  problem_solving : Z;
  total : num
}.

Record Decision : Type := {
  status : string;
  reasons : string;
  scores : Scores
}.

(** [r"Decision:\s*(Hired|Not\s*Hired)\."], searched with [re.I] *)
Definition decision_re : regex :=
  seq [lit "Decision:"; spaces;
       RGroup 1 (RAlt (lit "Hired") (seq [lit "Not"; spaces; lit "Hired"]));
       lit "."].

(** [r"Reasons:\s*(.*?)(?:\. Score:|$)"], searched with [re.DOTALL] *)
Definition reasons_re : regex :=
  seq [lit "Reasons:"; spaces; RGroup 1 (RStar CAny false);
       RAlt (lit ". Score:") REnd].

(** [r"Technical Depth:\s*(\d+)/100,\s*Communication:\s*(\d+)/100,\s*Problem-Solving:\s*(\d+)/100,\s*Total:\s*(\d+)/100"],
    searched with [re.I] *)
Definition scores_re : regex :=
  seq [lit "Technical Depth:"; spaces; RGroup 1 digits; lit "/100,"; spaces;
       lit "Communication:"; spaces; RGroup 2 digits; lit "/100,"; spaces;
       lit "Problem-Solving:"; spaces; RGroup 3 digits; lit "/100,"; spaces;
       lit "Total:"; spaces; RGroup 4 digits; lit "/100"].

(** [round(technical_depth * 0.4 + communication * 0.3 + problem_solving * 0.3, 2)] *)
Definition weighted_total (t c p : Z) : float :=
  round2 (fadd (fadd (fmul (float_of_int t) lit_0_4)
                     (fmul (float_of_int c) lit_0_3))
               (fmul (float_of_int p) lit_0_3)).

(** The guard of the outer [if]. *)
Definition trigger (result question : string) : bool :=
  contains "hired" (lower result)
  || contains "not hired" (lower result)
  || String.eqb (lower question) "end interview".

Definition no_reasons : string := "No specific reasons provided.".
Definition unable_to_parse : string :=
  "Unable to parse decision due to malformed response.".

(** The four captured integers, in the order of the dictionary literal. *)
Definition raw_scores : Type := (Z * Z * Z * Z)%type.

Definition in_0_100 (z : Z) : bool := (0 <=? z) && (z <=? 100).

(** [all(0 <= score <= 100 for score in scores.values())] *)
Definition valid_scores (r : raw_scores) : bool :=
  let '(t, c, p, tot) := r in
  in_0_100 t && in_0_100 c && in_0_100 p && in_0_100 tot.

Section Interpreter.

(** The interpreter's limit on [int()] of a decimal string. *)
Variable max_str_digits : nat.

(** "Extract decision status" *)
Definition extract_status (result : string) : outcome string :=
  match search re_I decision_re result with
  | Some m =>
      match group 1 m with
      | Some v => Ok (replace " " "" (lower v))
      | None => Raise AttributeError
      end
  | None =>
      Ok (if contains "hired" (lower result) then "hired" else "not hired")
  end.

(** "Extract reasons" *)
Definition extract_reasons (result : string) : outcome string :=
  match search re_DOTALL reasons_re result with
  | Some m =>
      match group 1 m with
      | Some v => Ok (strip v)
      | None => Raise AttributeError
      end
  | None => Ok no_reasons
  end.

Definition group_int (n : nat) (m : captures) : outcome Z :=
  match group n m with
  | Some v => py_int max_str_digits v
  | None => Raise TypeError
  end.

(** "Extract scores": [None] when the pattern is not found. *)
Definition extract_scores (result : string) : outcome (option raw_scores) :=
  match search re_I scores_re result with
  | Some m =>
      match group_int 1 m with
      | Raise e => Raise e
      | Ok t =>
      match group_int 2 m with
      | Raise e => Raise e
      | Ok c =>
      match group_int 3 m with
      | Raise e => Raise e
      | Ok p =>
      match group_int 4 m with
      | Raise e => Raise e
      | Ok tot => Ok (Some (t, c, p, tot))
      end end end end
  | None => Ok None
  end.

Local Open Scope py_scope.

(** The fallback dictionary of the two inner [else] branches: three
    draws from the band chosen by [decision == "hired"], and the total
    computed from them. *)
Definition fallback_scores (decision : string) : M Scores :=
  let hired := String.eqb decision "hired" in
  t <- (if hired then randint 60 85 else randint 40 65) ;;
  c <- (if hired then randint 65 90 else randint 45 70) ;;
  p <- (if hired then randint 60 85 else randint 40 65) ;;
  ret {| technical_depth := t; communication := c; problem_solving := p;
         total := PyFloat (weighted_total t c p) |}.

(** "Validate scores" and "Recalculate total to ensure correctness" *)
Definition reconcile (decision : string) (raw : option raw_scores) : M Scores :=
  match raw with
  | Some (t, c, p, tot) =>
      if valid_scores (t, c, p, tot) then
        let calculated_total := weighted_total t c p in
        if differs_by_more_than_1 (PyFloat calculated_total) (PyInt tot)
        then ret {| technical_depth := t; communication := c;
                    problem_solving := p; total := PyFloat calculated_total |}
        else ret {| technical_depth := t; communication := c;
                    problem_solving := p; total := PyInt tot |}
      else fallback_scores decision
  | None => fallback_scores decision
  end.

(** The body of the [try]. *)
Definition try_body (result : string) : M Decision :=
  decision <- lift (extract_status result) ;;
  reasons <- lift (extract_reasons result) ;;
  raw <- lift (extract_scores result) ;;
  scores <- reconcile decision raw ;;
  ret {| status := decision; reasons := reasons; scores := scores |}.

(** The [except Exception] handler: the "ultimate fallback". *)
Definition ultimate_fallback : M Decision :=
  t <- randint 40 65 ;;
  c <- randint 45 70 ;;
  p <- randint 40 65 ;;
  ret {| status := "not hired"; reasons := unable_to_parse;
         scores := {| technical_depth := t; communication := c;
                      problem_solving := p;
                      total := PyFloat (weighted_total t c p) |} |}.

(** The returned dictionary [{"decision": ...}] is its one value:
    [None], or [Some] of the decision record. *)
Definition parse_hiring_decision (result question : string)
  : M (option Decision) :=
  if trigger result question then
    try_except
      (d <- try_body result ;; ret (Some d))
      (fun _ => d <- ultimate_fallback ;; ret (Some d))
  else ret None.

End Interpreter.

End Main.


(** ** What a successful match says about the text

    [matches fl r v m m1]: the regular expression [r] can match exactly
    the string [v], turning the captures [m] into [m1].  The matcher is
    sound for it, which is all the proofs below need; what [$] demands
    of the rest of the text is not recorded. *)

Module ReSpec.
Import PyStr Re.

Fixpoint matches (fl : flags) (r : regex) (v : string) (m m1 : captures) : Prop :=
  match r with
  | REps => v = EmptyString /\ m1 = m
  | RChar c => exists a, v = String a EmptyString /\ cmatch fl c a = true /\ m1 = m
  | RStar c _ => all_chars (cmatch fl c) v = true /\ m1 = m
  | RSeq r1 r2 =>
      exists v1 v2 m2,
        v = (v1 ++ v2)%string /\ matches fl r1 v1 m m2 /\ matches fl r2 v2 m2 m1
  | RAlt r1 r2 => matches fl r1 v m m1 \/ matches fl r2 v m m1
  | RGroup n r => exists m2, matches fl r v m m2 /\ m1 = (n, v) :: m2
  | REnd => v = EmptyString /\ m1 = m
  end.

End ReSpec.

(** ** Vocabulary of the statements, and the texts used as examples *)

Module Cases.
Import PyStr PyInt Re PyNum Main.

(** The band a synthesized dictionary is drawn from, keyed by the
    status string the way the code keys it. *)
Definition in_band (st : string) (s : Scores) : Prop :=
  if String.eqb st "hired"
  then 60 <= technical_depth s <= 85 /\ 65 <= communication s <= 90
       /\ 60 <= problem_solving s <= 85
  else 40 <= technical_depth s <= 65 /\ 45 <= communication s <= 70
       /\ 40 <= problem_solving s <= 65.

(** The weighted total of the three sub-scores of a dictionary. *)
Definition computed_total (s : Scores) : float :=
  weighted_total (technical_depth s) (communication s) (problem_solving s).

(** The scores are synthesized: the pattern was not found, a value is
    outside [0, 100], or reading the values raised. *)
Definition synthesized (max_str_digits : nat) (result : string) : bool :=
  match extract_scores max_str_digits result with
  | Ok (Some r) => negb (valid_scores r)
  | _ => true
  end.

Definition space_or_not_blank (c : ascii) : bool :=
  negb (isspace c) || Ascii.eqb c " ".

(** The verdict captured by the decision pattern, if any, has no blank
    other than the space character. *)
Definition plain_verdict (result : string) : bool :=
  match search re_I decision_re result with
  | Some m =>
      match group 1 m with
      | Some v => all_chars space_or_not_blank v
      | None => true
      end
  | None => true
  end.

Definition spec_example : string :=
  "Decision: Hired. Reasons: Strong system design skills. Score: Technical Depth: 80/100, Communication: 70/100, Problem-Solving: 75/100, Total: 76/100.".

Definition total_95_example : string :=
  "Decision: Hired. Reasons: Strong system design skills. Score: Technical Depth: 80/100, Communication: 70/100, Problem-Solving: 75/100, Total: 95/100.".

Definition total_150_example : string :=
  "Decision: Hired. Reasons: Strong system design skills. Score: Technical Depth: 80/100, Communication: 70/100, Problem-Solving: 75/100, Total: 150/100.".

Definition not_hired_example : string := "not hired, weak answers".

Definition mid_interview_example : string :=
  "Can you describe a project where you used message queues?".

Definition lowercase_label_example : string :=
  "Decision: Not Hired. reasons: shallow answers.".

(** A verdict with a lower-case reasons label and a technical-depth
    score written with 4301 digits. *)
Definition long_score_example : string :=
  "Decision: Hired. reasons: strong answers. Score: Technical Depth: "
  ++ repeat_char "9" 4301
  ++ "/100, Communication: 70/100, Problem-Solving: 75/100, Total: 76/100.".

(** 75.5 and 61.5 as binary64 values *)
Definition f_75_5 : float := S754_finite false 5312840185413632 (-46).
Definition f_61_5 : float := S754_finite false 8655355533852672 (-47).

End Cases.

(** ** [validate_resume_id] *)

Module ResumeId.
Import PyStr Re.

(** [fastapi.HTTPException(status_code=..., detail=...)] *)
Inductive http_exception : Type :=
| HTTPException (status_code : nat) (detail : string).

(** The class [[0-9a-f]]: a character of [0-9] or one of the letters
    a to f, which under [re.I] also match their capitals. *)
Definition hex : regex :=
  RAlt (RChar CDigit)
    (RAlt (RChar (CLit "a"))
       (RAlt (RChar (CLit "b"))
          (RAlt (RChar (CLit "c"))
             (RAlt (RChar (CLit "d"))
                (RAlt (RChar (CLit "e")) (RChar (CLit "f"))))))).

(** [r{n}] *)
Fixpoint times (n : nat) (r : regex) : regex :=
  match n with
  | O => REps
  | S n' => RSeq r (times n' r)
  end.

(** [r'^[0-9a-f]{8}-[0-9a-f]{4}-[0-9a-f]{4}-[0-9a-f]{4}-[0-9a-f]{12}$'];
    it is used with [re.match], which starts at the beginning of the
    string, where [^] always holds. *)
Definition uuid_pattern : regex :=
  seq [times 8 hex; lit "-"; times 4 hex; lit "-"; times 4 hex; lit "-";
       times 4 hex; lit "-"; times 12 hex; REnd].

Definition invalid_resume_id : http_exception :=
  HTTPException 400 "Invalid resume_id format. Must be a valid UUID.".

(** Returns [inr tt] where the function returns, [inl e] where it
    raises [e]. *)
Definition validate_resume_id (resume_id : string) : http_exception + unit :=
  match match_here re_I uuid_pattern resume_id with
  | Some _ => inr tt
  | None => inl invalid_resume_id
  end.

(** Vocabulary: hexadecimal digits and the 8-4-4-4-12 text of a UUID. *)
Definition ishex (c : ascii) : bool :=
  isdigit c || in_range 97 102 c || in_range 65 70 c.

Definition hex_digits (n : nat) (s : string) : Prop :=
  length s = n /\ all_chars ishex s = true.

Definition uuid_text (u : string) : Prop :=
  exists a b c d e,
    u = (a ++ "-" ++ b ++ "-" ++ c ++ "-" ++ d ++ "-" ++ e)%string
    /\ hex_digits 8 a /\ hex_digits 4 b /\ hex_digits 4 c
    /\ hex_digits 4 d /\ hex_digits 12 e.

Definition newline_string : string := String newline EmptyString.

(** The characters an accepted identifier is made of. *)
Definition id_char (c : ascii) : bool :=
  ishex c || Ascii.eqb c "-" || Ascii.eqb c newline.

(** Consume [n] hexadecimal digits. *)
Fixpoint hex_run (n : nat) (s : string) : option string :=
  match n with
  | O => Some s
  | S n' =>
      match s with
      | String a s' => if ishex a then hex_run n' s' else None
      | EmptyString => None
      end
  end.

Definition dash (s : string) : option string :=
  match s with
  | String a s' => if Ascii.eqb a "-" then Some s' else None
  | EmptyString => None
  end.

Definition and_then {A B} (x : option A) (f : A -> option B) : option B :=
  match x with
  | Some a => f a
  | None => None
  end.

(** The pattern read as a left-to-right scanner. *)
Definition uuid_scan (s : string) : bool :=
  match
    and_then (hex_run 8 s) (fun s =>
    and_then (dash s) (fun s =>
    and_then (hex_run 4 s) (fun s =>
    and_then (dash s) (fun s =>
    and_then (hex_run 4 s) (fun s =>
    and_then (dash s) (fun s =>
    and_then (hex_run 4 s) (fun s =>
    and_then (dash s) (fun s =>
    and_then (hex_run 12 s) (fun s =>
    if at_end s then Some tt else None)))))))))
  with
  | Some _ => true
  | None => false
  end.

End ResumeId.

(** ** The path of the converted recording in [voice_chat_with_resume] *)

Module VoiceChat.
Import PyStr.

(** [s.endswith(suffix)] *)
Fixpoint endswith (s suffix : string) : bool :=
  if String.eqb s suffix then true
  else match s with
       | EmptyString => false
       | String _ s' => endswith s' suffix
       end.

(** The text before the last [sep] of [s], if [sep] occurs. *)
Fixpoint before_last (sep : ascii) (s : string) : option string :=
  match s with
  | EmptyString => None
  | String c s' =>
      match before_last sep s' with
      | Some h => Some (String c h)
      | None => if Ascii.eqb c sep then Some EmptyString else None
      end
  end.

(** [s.rsplit(sep, 1)[0]] for a one-character [sep] *)
Definition rsplit1_head (sep : ascii) (s : string) : string :=
  match before_last sep s with
  | Some h => h
  | None => s
  end.

(** [temp_audio_path if temp_audio_path.endswith(".wav")
     else temp_audio_path.rsplit(".", 1)[0] + ".wav"] *)
Definition wav_audio_path (temp_audio_path : string) : string :=
  if endswith temp_audio_path ".wav" then temp_audio_path
  else (rsplit1_head "." temp_audio_path ++ ".wav")%string.

Definition has_char (sep : ascii) (s : string) : bool :=
  negb (all_chars (fun c => negb (Ascii.eqb c sep)) s).

End VoiceChat.

(** ** Further vocabulary and example texts *)

Module MoreCases.
Import PyStr.

(** A non-empty run of decimal digits. *)
Definition digit_run (s : string) : Prop :=
  s <> EmptyString /\ all_chars isdigit s = true.

(** A closing remark without any verdict. *)
Definition goodbye_example : string := "Thank you, that is all for today.".

End MoreCases.

(** ** A reply in the format the prompts ask for *)

Module Format.
Import PyStr PyInt.

Definition verdict_text (hired : bool) : string :=
  if hired then "Hired" else "Not Hired".

(** The status string the function stores for a matched verdict. *)
Definition verdict_status (hired : bool) : string :=
  if hired then "hired" else "nothired".

Definition score_block (d1 d2 d3 d4 : string) : string :=
  "Technical Depth: " ++ d1 ++ "/100, Communication: " ++ d2
  ++ "/100, Problem-Solving: " ++ d3 ++ "/100, Total: " ++ d4 ++ "/100.".

(** 'Decision: [Hired/Not Hired]. Reasons: [Detailed reasons]. Score:
    Technical Depth: X/100, Communication: Y/100, Problem-Solving: Z/100,
    Total: W/100.', the format of the system prompt, with the reasons
    [rs] and the four numbers as written. *)
Definition formatted (hired : bool) (rs d1 d2 d3 d4 : string) : string :=
  "Decision: " ++ verdict_text hired ++ ". Reasons: " ++ rs ++ ". Score: "
  ++ score_block d1 d2 d3 d4.

(** [w] begins at a position of [r] in a text where [follow] comes
    after [r]. *)
Definition begins_within (w r follow : string) : bool :=
  contains w (r ++ take (Nat.pred (length w)) follow).

(** A number as [int()] reads it: a digit run within the limit. *)
Definition readable (max_str_digits : nat) (d : string) : Prop :=
  d <> EmptyString /\ all_chars isdigit d = true
  /\ too_many_digits max_str_digits (length d) = false.

End Format.

(** ** Facts about strings *)

Module PyStrFacts.
Import PyStr.

Lemma append_nil_r (s : string) : (s ++ "")%string = s.
Proof. induction s as [|c s IH]; simpl; [reflexivity | now rewrite IH]. Qed.

Lemma append_assoc (a b c : string) : ((a ++ b) ++ c)%string = (a ++ (b ++ c))%string.
Proof. induction a as [|x a IH]; simpl; [reflexivity | now rewrite IH]. Qed.

Lemma length_append (a b : string) :
  length (a ++ b) = (length a + length b)%nat.
Proof. induction a as [|x a IH]; simpl; [reflexivity | now rewrite IH]. Qed.

Lemma take_append (v s : string) : take (length v) (v ++ s) = v.
Proof. induction v as [|c v IH]; simpl; [now destruct s | now rewrite IH]. Qed.

Lemma take_suffix_length (v s : string) :
  take (length (v ++ s) - length s) (v ++ s) = v.
Proof.
  rewrite length_append.
  replace (length v + length s - length s)%nat with (length v) by lia.
  apply take_append.
Qed.

Lemma prefix_append (w s : string) : prefix w (w ++ s) = true.
Proof.
  induction w as [|c w IH]; simpl.
  - now destruct s.
  - destruct (ascii_dec c c) as [_|n]; [exact IH | now elim n].
Qed.

Lemma contains_prefix (w s : string) : prefix w s = true -> contains w s = true.
Proof. intros H. destruct s; cbn [contains]; now rewrite H. Qed.

(** A string that has [w] somewhere inside contains it. *)
Lemma contains_append (w pre post : string) :
  contains w (pre ++ w ++ post) = true.
Proof.
  induction pre as [|c pre IH].
  - change (contains w (w ++ post) = true).
    apply contains_prefix, prefix_append.
  - cbn [append contains]. rewrite IH. now destruct (prefix w _).
Qed.

Lemma all_chars_append (p : ascii -> bool) (a b : string) :
  all_chars p (a ++ b) = all_chars p a && all_chars p b.
Proof.
  induction a as [|c a IH]; simpl; [reflexivity|].
  now rewrite IH, andb_assoc.
Qed.

Lemma lower_append (a b : string) : lower (a ++ b) = (lower a ++ lower b)%string.
Proof. induction a as [|c a IH]; simpl; [reflexivity | now rewrite IH]. Qed.

End PyStrFacts.

(** ** Soundness of the matcher *)

Module ReFacts.
Import PyStr Re ReSpec PyStrFacts.

Lemma rstar_sound fl c greedy k m m' :
  forall s,
    rmatch fl (RStar c greedy) s m k = Some m' ->
    exists v s1, s = (v ++ s1)%string /\ all_chars (cmatch fl c) v = true
                 /\ k s1 m = Some m'.
Proof.
  induction s as [|a s IH]; cbn [rmatch]; intros H.
  - exists EmptyString, EmptyString. auto.
  - cbn [rmatch] in IH.
    destruct (cmatch fl c a) eqn:Ha.
    + assert (Hrec : forall m0,
                 (fix star (s0 : string) : option captures :=
                    match s0 with
                    | EmptyString => k s0 m
                    | String a0 s' =>
                        if cmatch fl c a0
                        then if greedy
                             then match star s' with
                                  | Some m'0 => Some m'0
                                  | None => k s0 m
                                  end
                             else match k s0 m with
                                  | Some m'0 => Some m'0
                                  | None => star s'
                                  end
                        else k s0 m
                    end) s = Some m0 -> m0 = m' ->
                 exists v s1, String a s = (v ++ s1)%string
                              /\ all_chars (cmatch fl c) v = true
                              /\ k s1 m = Some m').
      { intros m0 Hs ->. destruct (IH Hs) as (v & s1 & -> & Hv & Hk).
        exists (String a v), s1. cbn. rewrite Ha, Hv. auto. }
      assert (Hhere : k (String a s) m = Some m' ->
                 exists v s1, String a s = (v ++ s1)%string
                              /\ all_chars (cmatch fl c) v = true
                              /\ k s1 m = Some m').
      { intros Hk. exists EmptyString, (String a s). auto. }
      destruct greedy.
      * match type of H with
        | match ?X with _ => _ end = _ => destruct X eqn:E
        end.
        -- injection H as ->. eapply Hrec; eauto.
        -- auto.
      * match type of H with
        | match ?X with _ => _ end = _ => destruct X eqn:E
        end.
        -- injection H as ->. auto.
        -- eapply Hrec; eauto.
    + exists EmptyString, (String a s). auto.
Qed.

(** If the matcher succeeds, the text starts with a string [v] that
    [r] matches, and the continuation succeeded on what follows [v]. *)
Lemma rmatch_sound fl r :
  forall s m k m',
    rmatch fl r s m k = Some m' ->
    exists v s1 m1,
      s = (v ++ s1)%string /\ matches fl r v m m1 /\ k s1 m1 = Some m'.
Proof.
  induction r as [|c|c greedy|r1 IH1 r2 IH2|r1 IH1 r2 IH2|n r IH|];
    intros s m k m' H.
  - exists EmptyString, s, m. cbn in *. auto.
  - cbn in H. destruct s as [|a s]; [discriminate|].
    destruct (cmatch fl c a) eqn:Ha; [|discriminate].
    exists (String a EmptyString), s, m. cbn. eauto 6.
  - destruct (rstar_sound _ _ _ _ _ _ _ H) as (v & s1 & -> & Hv & Hk).
    exists v, s1, m. cbn. auto.
  - cbn [rmatch] in H.
    destruct (IH1 _ _ _ _ H) as (v1 & s1 & m1 & -> & Hm1 & H2).
    destruct (IH2 _ _ _ _ H2) as (v2 & s2 & m2 & -> & Hm2 & Hk).
    exists (v1 ++ v2)%string, s2, m2. rewrite append_assoc.
    cbn [matches]. eauto 8.
  - cbn [rmatch] in H.
    destruct (rmatch fl r1 s m k) eqn:E.
    + injection H as ->.
      destruct (IH1 _ _ _ _ E) as (v & s1 & m1 & -> & Hm & Hk).
      exists v, s1, m1. cbn [matches]. auto.
    + destruct (IH2 _ _ _ _ H) as (v & s1 & m1 & -> & Hm & Hk).
      exists v, s1, m1. cbn [matches]. auto.
  - cbn [rmatch] in H.
    destruct (IH _ _ _ _ H) as (v & s1 & m1 & -> & Hm & Hk).
    rewrite take_suffix_length in Hk.
    exists v, s1, ((n, v) :: m1). cbn [matches]. eauto.
  - cbn in H. destruct (at_end s); [|discriminate].
    exists EmptyString, s, m. cbn. auto.
Qed.

(** A successful search found a matching substring. *)
Lemma search_sound fl r :
  forall s m',
    search fl r s = Some m' ->
    exists pre v post,
      s = (pre ++ v ++ post)%string /\ matches fl r v [] m'.
Proof.
  induction s as [|a s IH]; intros m' H; cbn [search] in H.
  - destruct (match_here fl r "") eqn:E; [|discriminate].
    injection H as ->. unfold match_here in E.
    destruct (rmatch_sound _ _ _ _ _ _ E) as (v & s1 & m1 & Hs & Hm & Hk).
    injection Hk as ->. exists EmptyString, v, s1. auto.
  - destruct (match_here fl r (String a s)) eqn:E.
    + injection H as ->. unfold match_here in E.
      destruct (rmatch_sound _ _ _ _ _ _ E) as (v & s1 & m1 & Hs & Hm & Hk).
      injection Hk as ->. exists EmptyString, v, s1. auto.
    + destruct (IH _ H) as (pre & v & post & -> & Hm).
      exists (String a pre), v, post. auto.
Qed.

(** What a literal matches: itself, up to case under [re.I]. *)
Lemma matches_lit fl w :
  forall v m m1,
    matches fl (lit w) v m m1 ->
    m1 = m /\ length v = length w
    /\ if ignorecase fl then lower v = lower w else v = w.
Proof.
  induction w as [|c w IH]; intros v m m1 H; cbn in H.
  - destruct H as [-> ->]. destruct (ignorecase fl); auto.
  - destruct H as (v1 & v2 & m2 & -> & (a & -> & Ha & ->) & H2).
    destruct (IH _ _ _ H2) as (-> & Hl & Hv). split; [reflexivity|].
    cbn. split; [now rewrite Hl|].
    destruct (ignorecase fl).
    + apply Ascii.eqb_eq in Ha. now rewrite Hv, Ha.
    + apply Ascii.eqb_eq in Ha. now rewrite Hv, Ha.
Qed.

End ReFacts.

(** ** Facts about binary64 values and comparison *)

Module PyNumFacts.
Import PyNum.

(** The two literals are the binary64 values nearest to 4/10 and 3/10. *)
Lemma lit_0_4_nearest : lit_0_4 = fdiv (float_of_int 4) (float_of_int 10).
Proof. vm_compute. reflexivity. Qed.

Lemma lit_0_3_nearest : lit_0_3 = fdiv (float_of_int 3) (float_of_int 10).
Proof. vm_compute. reflexivity. Qed.

Lemma fsub_diag_finite s m e :
  fsub (S754_finite s m e) (S754_finite s m e) = S754_zero false.
Proof.
  unfold fsub, SFsub. rewrite Z.sub_diag. reflexivity.
Qed.

(** [abs(x - x) > 1] is false for every float, NaN and infinities
    included. *)
Lemma not_differs_refl (x : float) :
  differs_by_more_than_1 (PyFloat x) (PyFloat x) = false.
Proof.
  unfold differs_by_more_than_1, to_float.
  destruct x as [s|s| |s m e].
  - destruct s; reflexivity.
  - destruct s; reflexivity.
  - reflexivity.
  - rewrite fsub_diag_finite. reflexivity.
Qed.

Lemma compare_cont_Eq_inv (p q : positive) :
  Pos.compare_cont Eq p q = Eq -> p = q.
Proof. apply Pos.compare_eq. Qed.

(** Floats that compare equal are not more than 1 apart. *)
Lemma fcompare_Eq_not_differs (x y : float) :
  fcompare x y = Some Eq ->
  differs_by_more_than_1 (PyFloat x) (PyFloat y) = false.
Proof.
  unfold fcompare. intros H.
  destruct x as [s|s| |s m e], y as [s'|s'| |s' m' e']; cbn in H;
    try discriminate;
    try (destruct s; discriminate); try (destruct s'; discriminate).
  - destruct s, s'; reflexivity.
  - destruct s, s'; try discriminate; reflexivity.
  - assert (s = s' /\ e = e' /\ m = m') as (-> & -> & ->).
    { destruct s, s'; try discriminate;
        destruct (Z.compare_spec e e'); try discriminate;
        repeat split; try assumption.
      - apply compare_cont_Eq_inv.
        destruct (Pos.compare_cont Eq m m'); (reflexivity || discriminate).
      - apply compare_cont_Eq_inv. injection H as H. exact H. }
    apply not_differs_refl.
Qed.

(** Numbers more than 1 apart are not equal. *)
Lemma differs_not_eqb (a b : num) :
  differs_by_more_than_1 a b = true -> num_eqb a b = false.
Proof.
  intros H. destruct (num_eqb a b) eqn:E; [|reflexivity].
  assert (differs_by_more_than_1 a b = false) as H'; [|congruence].
  unfold num_eqb in E.
  assert (Hf : fcompare (to_float a) (to_float b) = Some Eq ->
               differs_by_more_than_1 a b = false).
  { intros Hc. apply fcompare_Eq_not_differs in Hc. exact Hc. }
  destruct a as [x|x], b as [y|y];
    try (apply Hf; destruct (fcompare _ _) as [[]|]; (reflexivity || discriminate)).
  apply Z.eqb_eq in E. subst y.
  exact (not_differs_refl (float_of_int x)).
Qed.

End PyNumFacts.

(** ** Facts about the function *)

Module MainFacts.
Import PyStr PyInt Re ReSpec PyNum Main Cases PyStrFacts ReFacts PyNumFacts.

Lemma randint_range (a b : Z) (g : rng) :
  a <= b ->
  exists v g', randint a b g = (Ok v, g') /\ a <= v <= b.
Proof.
  intros Hab. destruct g as [|x g]; cbn.
  - exists a, []. split; [reflexivity | lia].
  - exists (a + x mod (b - a + 1)), g. split; [reflexivity|].
    pose proof (Z.mod_pos_bound x (b - a + 1)). lia.
Qed.

Lemma blank_is_space (c : ascii) :
  isspace c = true -> space_or_not_blank c = true -> c = " "%char.
Proof.
  unfold space_or_not_blank. intros -> H. cbn in H.
  now apply Ascii.eqb_eq in H.
Qed.

(** Removing spaces passes over a run of blanks that are all spaces. *)
Lemma replace_space_run (w rest : string) :
  all_chars isspace w = true ->
  all_chars space_or_not_blank w = true ->
  replace " " "" (lower w ++ rest) = replace " " "" rest.
Proof.
  unfold replace.
  induction w as [|c w IH]; intros Hs Hp; [reflexivity|].
  cbn [all_chars] in Hs, Hp.
  apply andb_true_iff in Hs as [Hc Hs]. apply andb_true_iff in Hp as [Hc' Hp].
  rewrite (blank_is_space c Hc Hc').
  change (lower (String " " w) ++ rest)%string
    with (String " " (lower w ++ rest)).
  cbn [replace_from].
  replace (prefix " " (String " " (lower w ++ rest))) with true
    by (cbn; now destruct (lower w ++ rest)%string).
  cbn. now apply IH.
Qed.

(** The decision pattern always fills its group, with "Hired" or with
    "Not", blanks and "Hired", in any case. *)
Lemma decision_match_shape (result : string) (m : captures) :
  search re_I decision_re result = Some m ->
  exists v, m = [(1%nat, v)]
    /\ (lower v = "hired"
        \/ exists w, all_chars isspace w = true
                     /\ lower v = ("not" ++ lower w ++ "hired")%string
                     /\ (all_chars space_or_not_blank v = true ->
                         all_chars space_or_not_blank w = true)).
Proof.
  intros H. apply search_sound in H as (pre & v & post & _ & H).
  unfold decision_re in H. cbn [seq matches spaces] in H.
  destruct H as (v1 & v2 & m2 & -> & H1 & v3 & v4 & m3 & -> & [_ ->] & H).
  apply matches_lit in H1 as [-> _].
  destruct H as (g & v5 & m4 & -> & (m5 & Hg & ->) & v6 & v7 & m6 & -> & H6 & -> & ->).
  apply matches_lit in H6 as [-> _].
  exists g. split.
  - destruct Hg as [Hg | Hg].
    + apply matches_lit in Hg as [-> _]. reflexivity.
    + destruct Hg as (a & b & ma & -> & Ha & w & c & mb & -> & [_ ->] & h & e & mc & -> & Hh & -> & ->).
      apply matches_lit in Ha as [-> _]. apply matches_lit in Hh as [-> _].
      reflexivity.
  - destruct Hg as [Hg | Hg].
    + left. apply matches_lit in Hg as (_ & _ & Hg). exact Hg.
    + right.
      destruct Hg as (a & b & ma & -> & Ha & w & c & mb & -> & [Hw _] & h & e & mc & -> & Hh & -> & _).
      apply matches_lit in Ha as (_ & _ & Ha). apply matches_lit in Hh as (_ & _ & Hh).
      cbn [ignorecase re_I] in Ha, Hh.
      exists w. split; [exact Hw|]. split.
      * rewrite !lower_append, Ha, Hh. reflexivity.
      * rewrite !all_chars_append. intros Hv.
        repeat (apply andb_true_iff in Hv as [? Hv]). 
        match goal with Hx : all_chars space_or_not_blank w = true |- _ => exact Hx end.
Qed.

Lemma reasons_match_shape (result : string) (m : captures) :
  search re_DOTALL reasons_re result = Some m ->
  contains "Reasons:" result = true /\ exists v, m = [(1%nat, v)].
Proof.
  intros H. apply search_sound in H as (pre & v & post & -> & H).
  unfold reasons_re in H. cbn [seq matches spaces] in H.
  destruct H as (v1 & v2 & m2 & -> & H1 & v3 & v4 & m3 & -> & [_ ->] & H).
  apply matches_lit in H1 as (-> & _ & H1). cbn [ignorecase re_DOTALL] in H1. subst v1.
  destruct H as (g & v5 & m4 & -> & (m5 & [_ ->] & ->) & v6 & v7 & m6 & -> & H6 & -> & ->).
  split.
  - rewrite !append_assoc. apply contains_append.
  - exists g. destruct H6 as [H6 | [_ ->]]; [|reflexivity].
    apply matches_lit in H6 as [-> _]. reflexivity.
Qed.

Lemma extract_status_ok (result : string) :
  exists st, extract_status result = Ok st.
Proof.
  unfold extract_status.
  destruct (search re_I decision_re result) as [m|] eqn:E; [|eauto].
  apply decision_match_shape in E as (v & -> & _). cbn. eauto.
Qed.

Lemma extract_reasons_ok (result : string) :
  exists rs, extract_reasons result = Ok rs.
Proof.
  unfold extract_reasons.
  destruct (search re_DOTALL reasons_re result) as [m|] eqn:E; [|eauto].
  apply reasons_match_shape in E as (_ & v & ->). cbn. eauto.
Qed.

(** Without the exact label the reasons pattern is not found. *)
Lemma extract_reasons_absent (result : string) :
  contains "Reasons:" result = false ->
  extract_reasons result = Ok no_reasons.
Proof.
  intros H. unfold extract_reasons.
  destruct (search re_DOTALL reasons_re result) as [m|] eqn:E; [|reflexivity].
  apply reasons_match_shape in E as (E & _). congruence.
Qed.

Lemma extract_status_plain (result st : string) :
  extract_status result = Ok st ->
  plain_verdict result = true ->
  st = "hired" \/ st = "nothired" \/ st = "not hired".
Proof.
  unfold extract_status, plain_verdict.
  destruct (search re_I decision_re result) as [m|] eqn:E.
  - apply decision_match_shape in E as (v & -> & Hv). cbn.
    intros [= <-] Hp. destruct Hv as [-> | (w & Hw & -> & Hsp)].
    + left. reflexivity.
    + right. left. specialize (Hsp Hp).
      change (replace " " "" ("not" ++ lower w ++ "hired"))
        with ("not" ++ replace " " "" (lower w ++ "hired"))%string.
      now rewrite replace_space_run.
  - intros [= <-] _. destruct (contains "hired" (lower result)); auto.
Qed.

Lemma fallback_scores_spec (st : string) (g : rng) :
  exists sc g',
    fallback_scores st g = (Ok sc, g')
    /\ in_band st sc /\ total sc = PyFloat (computed_total sc).
Proof.
  unfold fallback_scores, in_band, bind, ret.
  destruct (String.eqb st "hired").
  - destruct (randint_range 60 85 g) as (t & g1 & -> & Ht); [lia|].
    destruct (randint_range 65 90 g1) as (c & g2 & -> & Hc); [lia|].
    destruct (randint_range 60 85 g2) as (p & g3 & -> & Hp); [lia|].
    eexists _, g3. split; [reflexivity|]. cbn. auto.
  - destruct (randint_range 40 65 g) as (t & g1 & -> & Ht); [lia|].
    destruct (randint_range 45 70 g1) as (c & g2 & -> & Hc); [lia|].
    destruct (randint_range 40 65 g2) as (p & g3 & -> & Hp); [lia|].
    eexists _, g3. split; [reflexivity|]. cbn. auto.
Qed.

Lemma ultimate_fallback_spec (g : rng) :
  exists sc g',
    ultimate_fallback g
    = (Ok {| status := "not hired"; reasons := unable_to_parse; scores := sc |}, g')
    /\ in_band "not hired" sc /\ total sc = PyFloat (computed_total sc).
Proof.
  unfold ultimate_fallback, in_band, bind, ret.
  destruct (randint_range 40 65 g) as (t & g1 & -> & Ht); [lia|].
  destruct (randint_range 45 70 g1) as (c & g2 & -> & Hc); [lia|].
  destruct (randint_range 40 65 g2) as (p & g3 & -> & Hp); [lia|].
  eexists _, g3. split; [reflexivity|]. cbn. auto.
Qed.

(** Valid extracted scores are kept; only the total may be replaced. *)
Lemma reconcile_valid (st : string) (t c p tot : Z) (g : rng) :
  valid_scores (t, c, p, tot) = true ->
  reconcile st (Some (t, c, p, tot)) g
  = (Ok {| technical_depth := t; communication := c; problem_solving := p;
           total := if differs_by_more_than_1 (PyFloat (weighted_total t c p))
                                              (PyInt tot)
                    then PyFloat (weighted_total t c p) else PyInt tot |}, g).
Proof.
  intros H. unfold reconcile. rewrite H.
  destruct (differs_by_more_than_1 _ _); reflexivity.
Qed.

Lemma reconcile_fallback (st : string) (raw : option raw_scores) (g : rng) :
  match raw with Some r => valid_scores r = false | None => True end ->
  reconcile st raw g = fallback_scores st g.
Proof.
  unfold reconcile. destruct raw as [[[[t c] p] tot]|]; [|reflexivity].
  now intros ->.
Qed.

Lemma reconcile_ok (st : string) (raw : option raw_scores) (g : rng) :
  exists sc g', reconcile st raw g = (Ok sc, g').
Proof.
  destruct raw as [[[[t c] p] tot]|].
  - destruct (valid_scores (t, c, p, tot)) eqn:E.
    + rewrite reconcile_valid by assumption. eauto.
    + rewrite reconcile_fallback by assumption.
      destruct (fallback_scores_spec st g) as (sc & g' & -> & _). eauto.
  - rewrite reconcile_fallback by exact I.
    destruct (fallback_scores_spec st g) as (sc & g' & -> & _). eauto.
Qed.

(** The body of the [try] raises exactly when reading the scores does. *)
Lemma try_body_cases (lim : nat) (result : string) (g : rng) :
  (exists st rs raw sc g',
      extract_status result = Ok st /\ extract_reasons result = Ok rs
      /\ extract_scores lim result = Ok raw
      /\ reconcile st raw g = (Ok sc, g')
      /\ try_body lim result g
         = (Ok {| status := st; reasons := rs; scores := sc |}, g'))
  \/ (exists e, extract_scores lim result = Raise e
                /\ try_body lim result g = (Raise e, g)).
Proof.
  unfold try_body, bind, lift, ret.
  destruct (extract_status_ok result) as (st & Hst).
  destruct (extract_reasons_ok result) as (rs & Hrs).
  rewrite Hst, Hrs.
  destruct (extract_scores lim result) as [raw|e] eqn:Hraw.
  - left. destruct (reconcile_ok st raw g) as (sc & g' & Hsc).
    exists st, rs, raw, sc, g'. rewrite Hsc. auto.
  - right. exists e. auto.
Qed.

Lemma parse_unfold (lim : nat) (result question : string) (g : rng) :
  parse_hiring_decision lim result question g
  = if trigger result question
    then match try_body lim result g with
         | (Ok d, g1) => (Ok (Some d), g1)
         | (Raise _, g1) =>
             match ultimate_fallback g1 with
             | (Ok d, g2) => (Ok (Some d), g2)
             | (Raise e, g2) => (Raise e, g2)
             end
         end
    else (Ok None, g).
Proof.
  unfold parse_hiring_decision, try_except, bind, ret.
  destruct (trigger result question); [|reflexivity].
  destruct (try_body lim result g) as [[d|e] g1]; reflexivity.
Qed.

(** Every way a triggered call can end. *)
Lemma parse_cases (lim : nat) (result question : string) (g : rng) :
  trigger result question = true ->
  (exists st rs raw sc g',
      extract_status result = Ok st /\ extract_reasons result = Ok rs
      /\ extract_scores lim result = Ok raw
      /\ reconcile st raw g = (Ok sc, g')
      /\ parse_hiring_decision lim result question g
         = (Ok (Some {| status := st; reasons := rs; scores := sc |}), g'))
  \/ (exists e sc g',
         extract_scores lim result = Raise e
         /\ in_band "not hired" sc /\ total sc = PyFloat (computed_total sc)
         /\ parse_hiring_decision lim result question g
            = (Ok (Some {| status := "not hired"; reasons := unable_to_parse;
                           scores := sc |}), g')).
Proof.
  intros Ht. rewrite parse_unfold, Ht.
  destruct (try_body_cases lim result g)
    as [(st & rs & raw & sc & g' & Hst & Hrs & Hraw & Hsc & ->)
       | (e & Hraw & ->)].
  - left. exists st, rs, raw, sc, g'. auto.
  - right. destruct (ultimate_fallback_spec g) as (sc & g' & -> & Hb & Htot).
    exists e, sc, g'. auto.
Qed.

(** A returned decision comes from a triggered call. *)
Lemma returned_triggered (lim : nat) (result question : string) (g g' : rng)
  (d : Decision) :
  parse_hiring_decision lim result question g = (Ok (Some d), g') ->
  trigger result question = true.
Proof.
  rewrite parse_unfold. destruct (trigger result question); [reflexivity|].
  discriminate.
Qed.

(** The substring test of the guard: "not hired" adds nothing. *)
Lemma prefix_inv (w s : string) :
  prefix w s = true -> exists post, s = (w ++ post)%string.
Proof.
  revert s. induction w as [|c w IH]; intros s H.
  - exists s. reflexivity.
  - destruct s as [|a s]; [discriminate|]. cbn in H.
    destruct (ascii_dec c a) as [->|]; [|discriminate].
    destruct (IH _ H) as (post & ->). exists post. reflexivity.
Qed.

Lemma contains_inv (w s : string) :
  contains w s = true -> exists pre post, s = (pre ++ w ++ post)%string.
Proof.
  induction s as [|a s IH]; cbn [contains]; intros H.
  - destruct (prefix w "") eqn:E; [|discriminate].
    apply prefix_inv in E as (post & E). exists EmptyString, post. exact E.
  - destruct (prefix w (String a s)) eqn:E.
    + apply prefix_inv in E as (post & E). exists EmptyString, post. exact E.
    + destruct (IH H) as (pre & post & ->). exists (String a pre), post.
      reflexivity.
Qed.

Lemma contains_not_hired (s : string) :
  contains "not hired" s = true -> contains "hired" s = true.
Proof.
  intros H. apply contains_inv in H as (pre & post & ->).
  change (pre ++ "not hired" ++ post)%string
    with (pre ++ "not " ++ "hired" ++ post)%string.
  rewrite <- append_assoc. apply contains_append.
Qed.

End MainFacts.

(** ** Evaluating the function on the example texts *)

Module Runs.
Import PyStr PyInt Re PyNum Main Cases MainFacts.

Lemma status_of_spec_example : extract_status spec_example = Ok "hired".
Proof. vm_compute. reflexivity. Qed.

Lemma reasons_of_spec_example :
  extract_reasons spec_example = Ok "Strong system design skills".
Proof. vm_compute. reflexivity. Qed.

Lemma scores_of_spec_example (lim : nat) :
  extract_scores lim spec_example = Ok (Some (80, 70, 75, 76)).
Proof. vm_compute. reflexivity. Qed.

Lemma scores_of_total_95_example (lim : nat) :
  extract_scores lim total_95_example = Ok (Some (80, 70, 75, 95)).
Proof. vm_compute. reflexivity. Qed.

Lemma scores_of_total_150_example (lim : nat) :
  extract_scores lim total_150_example = Ok (Some (80, 70, 75, 150)).
Proof. vm_compute. reflexivity. Qed.

Lemma weighted_total_80_70_75 : weighted_total 80 70 75 = f_75_5.
Proof. vm_compute. reflexivity. Qed.

(** The whole call on the example of the specification: nothing is
    drawn, whatever the question and the interpreter's limit. *)
Lemma run_spec_example (lim : nat) (question : string) (g : rng) :
  parse_hiring_decision lim spec_example question g
  = (Ok (Some {| status := "hired";
                 reasons := "Strong system design skills";
                 scores := {| technical_depth := 80; communication := 70;
                              problem_solving := 75; total := PyInt 76 |} |}),
     g).
Proof.
  rewrite parse_unfold.
  assert (trigger spec_example question = true) as -> by reflexivity.
  unfold try_body, bind, lift, ret.
  rewrite status_of_spec_example, reasons_of_spec_example,
    scores_of_spec_example.
  rewrite reconcile_valid by reflexivity.
  rewrite weighted_total_80_70_75. reflexivity.
Qed.

Lemma run_total_95_example (lim : nat) (question : string) (g : rng) :
  parse_hiring_decision lim total_95_example question g
  = (Ok (Some {| status := "hired";
                 reasons := "Strong system design skills";
                 scores := {| technical_depth := 80; communication := 70;
                              problem_solving := 75;
                              total := PyFloat f_75_5 |} |}),
     g).
Proof.
  rewrite parse_unfold.
  assert (trigger total_95_example question = true) as -> by reflexivity.
  unfold try_body, bind, lift, ret.
  assert (extract_status total_95_example = Ok "hired") as ->
      by (vm_compute; reflexivity).
  assert (extract_reasons total_95_example = Ok "Strong system design skills")
    as -> by (vm_compute; reflexivity).
  rewrite scores_of_total_95_example.
  rewrite reconcile_valid by reflexivity.
  rewrite weighted_total_80_70_75. reflexivity.
Qed.

(** With a total of 150 the four values are discarded; on an exhausted
    generator the draws are the lower ends of the "hired" band. *)
Lemma run_total_150_example (lim : nat) (question : string) :
  parse_hiring_decision lim total_150_example question []
  = (Ok (Some {| status := "hired";
                 reasons := "Strong system design skills";
                 scores := {| technical_depth := 60; communication := 65;
                              problem_solving := 60;
                              total := PyFloat f_61_5 |} |}),
     []).
Proof.
  rewrite parse_unfold.
  assert (trigger total_150_example question = true) as -> by reflexivity.
  unfold try_body, bind, lift, ret.
  assert (extract_status total_150_example = Ok "hired") as ->
      by (vm_compute; reflexivity).
  assert (extract_reasons total_150_example = Ok "Strong system design skills")
    as -> by (vm_compute; reflexivity).
  rewrite scores_of_total_150_example.
  vm_compute. reflexivity.
Qed.

Lemma run_not_hired_example (lim : nat) (g : rng) :
  exists sc g',
    parse_hiring_decision lim not_hired_example "end interview" g
    = (Ok (Some {| status := "hired"; reasons := no_reasons; scores := sc |}),
       g')
    /\ in_band "hired" sc /\ total sc = PyFloat (computed_total sc).
Proof.
  rewrite parse_unfold.
  assert (trigger not_hired_example "end interview" = true) as ->
      by reflexivity.
  unfold try_body, bind, lift, ret.
  assert (extract_status not_hired_example = Ok "hired") as ->
      by (vm_compute; reflexivity).
  assert (extract_reasons not_hired_example = Ok no_reasons) as ->
      by (vm_compute; reflexivity).
  assert (extract_scores lim not_hired_example = Ok None) as ->
      by (vm_compute; reflexivity).
  rewrite reconcile_fallback by exact I.
  destruct (fallback_scores_spec "hired" g) as (sc & g' & -> & Hb & Ht).
  exists sc, g'. auto.
Qed.

(** A score of 4301 digits makes [int()] raise under the default limit. *)
Lemma long_score_raises :
  extract_scores default_max_str_digits long_score_example = Raise ValueError.
Proof. vm_compute. reflexivity. Qed.

Lemma long_score_triggers : trigger long_score_example "" = true.
Proof. vm_compute. reflexivity. Qed.

Lemma long_score_no_label : contains "Reasons:" long_score_example = false.
Proof. vm_compute. reflexivity. Qed.

Lemma run_long_score_example :
  parse_hiring_decision default_max_str_digits long_score_example "" []
  = (Ok (Some {| status := "not hired"; reasons := unable_to_parse;
                 scores := {| technical_depth := 40; communication := 45;
                              problem_solving := 40;
                              total := PyFloat (weighted_total 40 45 40) |} |}),
     []).
Proof.
  rewrite parse_unfold, long_score_triggers.
  destruct (try_body_cases default_max_str_digits long_score_example [])
    as [(st & rs & raw & sc & g' & _ & _ & Hraw & _)
       | (e & _ & ->)].
  - rewrite long_score_raises in Hraw. discriminate.
  - reflexivity.
Qed.

End Runs.

(** ** The claims *)

Import PyStr PyInt Re PyNum Main Cases PyNumFacts MainFacts Runs.

(** A triggered call whose four extracted values are valid keeps the
    three sub-scores, and replaces the total exactly when it is more
    than 1 away from the computed value; nothing is drawn. *)
Lemma run_valid_scores
  (lim : nat) (result question : string) (g : rng) (t c p tot : Z) :
  trigger result question = true ->
  extract_scores lim result = Ok (Some (t, c, p, tot)) ->
  valid_scores (t, c, p, tot) = true ->
  exists st rs,
    parse_hiring_decision lim result question g
    = (Ok (Some {| status := st; reasons := rs;
                   scores :=
                     {| technical_depth := t; communication := c;
                        problem_solving := p;
                        total :=
                          if differs_by_more_than_1
                               (PyFloat (weighted_total t c p)) (PyInt tot)
                          then PyFloat (weighted_total t c p)
                          else PyInt tot |} |}), g).
Proof.
  intros Ht Hraw Hv.
  destruct (parse_cases lim result question g Ht)
    as [(st & rs & raw & sc & g' & _ & _ & Hraw' & Hsc & Hp)
       | (e & sc & g' & Hraw' & _)]; [|congruence].
  rewrite Hraw in Hraw'. injection Hraw' as <-.
  rewrite reconcile_valid in Hsc by assumption. injection Hsc as <- <-.
  exists st, rs. exact Hp.
Qed.

(** C1.  The text "not hired, weak answers" with the question
    "end interview" does not match the decision pattern and contains
    "not hired", yet the returned status is "hired": the fallback tests
    for the substring "hired" first, and "not hired" contains it. *)
Theorem C1_not_hired_text_is_reported_hired (lim : nat) (g : rng) :
  search re_I decision_re not_hired_example = None
  /\ contains "not hired" (lower not_hired_example) = true
  /\ exists d g',
       parse_hiring_decision lim not_hired_example "end interview" g
       = (Ok (Some d), g')
       /\ status d = "hired".
Proof.
  split; [vm_compute; reflexivity|]. split; [vm_compute; reflexivity|].
  destruct (run_not_hired_example lim g) as (sc & g' & -> & _).
  eexists _, g'. split; reflexivity.
Qed.



(** C3.  When the lower-cased text does not contain "hired" and the
    lower-cased question is not "end interview", the result is the
    explicit "no decision" value and nothing is drawn. *)
Theorem C3_no_trigger_no_decision
  (lim : nat) (result question : string) (g : rng) :
  contains "hired" (lower result) = false ->
  lower question <> "end interview" ->
  parse_hiring_decision lim result question g = (Ok None, g).
Proof.
  intros Hh Hq. rewrite parse_unfold. unfold trigger.
  rewrite Hh.
  destruct (contains "not hired" (lower result)) eqn:Hn.
  - apply contains_not_hired in Hn. congruence.
  - apply String.eqb_neq in Hq. rewrite Hq. reflexivity.
Qed.

Lemma C3_witness :
  parse_hiring_decision default_max_str_digits mid_interview_example
    "What is your name?" [3; 1; 4]
  = (Ok None, [3; 1; 4]).
Proof.
  apply C3_no_trigger_no_decision.
  - vm_compute. reflexivity.
  - vm_compute. discriminate.
Defined.

(** C4.  The call never raises.  Without a trigger it returns the null
    value; otherwise it returns the decision built by the body of the
    [try], or, when that body raises, a decision with status
    "not hired", the fixed "Unable to parse" reasons and scores from the
    lower band. *)
Theorem C4_never_raises (lim : nat) (result question : string) (g : rng) :
  exists r g',
    parse_hiring_decision lim result question g = (Ok r, g')
    /\ if trigger result question
       then match try_body lim result g with
            | (Ok d, g1) => r = Some d /\ g' = g1
            | (Raise _, _) =>
                exists sc, r = Some {| status := "not hired";
                                       reasons := unable_to_parse;
                                       scores := sc |}
                           /\ in_band "not hired" sc
                           /\ total sc = PyFloat (computed_total sc)
            end
       else r = None.
Proof.
  rewrite parse_unfold.
  destruct (trigger result question); [|eauto].
  destruct (try_body lim result g) as [[d|e] g1]; [eauto|].
  destruct (ultimate_fallback_spec g1) as (sc & g' & -> & Hb & Ht).
  eexists _, g'. split; [reflexivity|]. eauto.
Qed.

Lemma C4_witness :
  exists sc g',
    parse_hiring_decision default_max_str_digits long_score_example "" []
    = (Ok (Some {| status := "not hired"; reasons := unable_to_parse;
                   scores := sc |}), g').
Proof.
  destruct (C4_never_raises default_max_str_digits long_score_example "" [])
    as (r & g' & Hr & H).
  rewrite long_score_triggers in H.
  destruct (try_body_cases default_max_str_digits long_score_example [])
    as [(st & rs & raw & sc & g1 & _ & _ & Hraw & _) | (e & _ & Hb)].
  - rewrite long_score_raises in Hraw. discriminate.
  - rewrite Hb in H. destruct H as (sc & -> & _).
    exists sc, g'. exact Hr.
Defined.

(** How the total of a returned decision relates to its sub-scores:
    it is the computed value, or the extracted total, then within 1 of
    the computed value and in [0, 100]. *)
Lemma returned_total_cases
  (lim : nat) (result question : string) (g g' : rng) (d : Decision) :
  parse_hiring_decision lim result question g = (Ok (Some d), g') ->
  total (scores d) = PyFloat (computed_total (scores d))
  \/ exists tot,
       total (scores d) = PyInt tot /\ in_0_100 tot = true
       /\ differs_by_more_than_1 (PyFloat (computed_total (scores d)))
                                 (PyInt tot) = false.
Proof.
  intros H. pose proof (returned_triggered _ _ _ _ _ _ H) as Ht.
  destruct (parse_cases lim result question g Ht)
    as [(st & rs & raw & sc & g1 & _ & _ & _ & Hsc & Hp)
       | (e & sc & g1 & _ & _ & Htot & Hp)];
    rewrite Hp in H; injection H as <- <-; cbn [scores]; [|auto].
  destruct raw as [[[[t c] p] tot]|].
  - destruct (valid_scores (t, c, p, tot)) eqn:Hv.
    + rewrite reconcile_valid in Hsc by assumption. injection Hsc as <- <-.
      unfold computed_total. cbn.
      destruct (differs_by_more_than_1 _ _) eqn:E; [auto|].
      right. exists tot. repeat split; try assumption.
      unfold valid_scores in Hv.
      now apply andb_true_iff in Hv as [_ Hv].
    + rewrite reconcile_fallback in Hsc by assumption.
      destruct (fallback_scores_spec st g) as (sc' & g2 & E & _ & Htot).
      rewrite E in Hsc. injection Hsc as <- <-. auto.
  - rewrite reconcile_fallback in Hsc by exact I.
    destruct (fallback_scores_spec st g) as (sc' & g2 & E & _ & Htot).
    rewrite E in Hsc. injection Hsc as <- <-. auto.
Qed.

(** The three sub-scores of a returned decision are in [0, 100]. *)
Lemma returned_sub_scores
  (lim : nat) (result question : string) (g g' : rng) (d : Decision) :
  parse_hiring_decision lim result question g = (Ok (Some d), g') ->
  in_0_100 (technical_depth (scores d)) = true
  /\ in_0_100 (communication (scores d)) = true
  /\ in_0_100 (problem_solving (scores d)) = true.
Proof.
  assert (Hband : forall st sc, in_band st sc ->
            in_0_100 (technical_depth sc) = true
            /\ in_0_100 (communication sc) = true
            /\ in_0_100 (problem_solving sc) = true).
  { unfold in_band, in_0_100. intros st sc Hb.
    destruct (String.eqb st "hired");
      repeat split; apply andb_true_iff; split; apply Z.leb_le; lia. }
  intros H. pose proof (returned_triggered _ _ _ _ _ _ H) as Ht.
  destruct (parse_cases lim result question g Ht)
    as [(st & rs & raw & sc & g1 & _ & _ & _ & Hsc & Hp)
       | (e & sc & g1 & _ & Hb & _ & Hp)];
    rewrite Hp in H; injection H as <- <-; cbn [scores]; [|eauto].
  destruct raw as [[[[t c] p] tot]|].
  - destruct (valid_scores (t, c, p, tot)) eqn:Hv.
    + rewrite reconcile_valid in Hsc by assumption. injection Hsc as <- <-.
      cbn [technical_depth communication problem_solving].
      unfold valid_scores in Hv.
      apply andb_true_iff in Hv as [Hv _].
      apply andb_true_iff in Hv as [Hv Hp'].
      apply andb_true_iff in Hv as [Hv Hc']. auto.
    + rewrite reconcile_fallback in Hsc by assumption.
      destruct (fallback_scores_spec st g) as (sc' & g2 & E & Hb & _).
      rewrite E in Hsc. injection Hsc as <- <-. eauto.
  - rewrite reconcile_fallback in Hsc by exact I.
    destruct (fallback_scores_spec st g) as (sc' & g2 & E & Hb & _).
    rewrite E in Hsc. injection Hsc as <- <-. eauto.
Qed.












(** C9, as stated, fails on the reasons: the period before " Score:"
    belongs to the delimiter of the reasons pattern, so the returned
    reasons do not end with it. *)
Lemma C9_counterexample :
  ~ (exists d g',
        parse_hiring_decision default_max_str_digits spec_example "" []
        = (Ok (Some d), g')
        /\ status d = "hired"
        /\ reasons d = "Strong system design skills."
        /\ scores d = {| technical_depth := 80; communication := 70;
                         problem_solving := 75; total := PyInt 76 |}).
Proof.
  intros (d & g' & H & _ & Hr & _).
  rewrite run_spec_example in H. injection H as <- _.
  cbn in Hr. discriminate.
Qed.

(** C9, amended.  On the example text the call returns status "hired",
    reasons "Strong system design skills" (without the final period) and
    the scores 80, 70, 75 with the reported total 76 kept, whatever the
    question. *)
Theorem C9_spec_example (lim : nat) (question : string) (g : rng) :
  parse_hiring_decision lim spec_example question g
  = (Ok (Some {| status := "hired";
                 reasons := "Strong system design skills";
                 scores := {| technical_depth := 80; communication := 70;
                              problem_solving := 75; total := PyInt 76 |} |}),
     g).
Proof. apply run_spec_example. Qed.

(** C10, as stated, fails: when a score has more digits than [int()]
    accepts, the body raises and the reasons are the "Unable to parse"
    string, also for a text without the label "Reasons:". *)
Lemma C10_counterexample :
  ~ (forall lim result question g g' d,
        trigger result question = true ->
        contains "reasons:" (lower result) = true ->
        contains "Reasons:" result = false ->
        parse_hiring_decision lim result question g = (Ok (Some d), g') ->
        reasons d = no_reasons).
Proof.
  intros H.
  specialize (H default_max_str_digits long_score_example "" [] [] _
                long_score_triggers eq_refl long_score_no_label
                run_long_score_example).
  cbn in H. discriminate.
Qed.

(** C10, amended.  The label "Reasons:" is matched with its exact case:
    for a triggered text in which "Reasons:" never occurs, the returned
    reasons are the placeholder "No specific reasons provided.", unless
    reading the scores raised, in which case they are the "Unable to
    parse" string. *)
Theorem C10_reasons_label_case_sensitive
  (lim : nat) (result question : string) (g : rng) :
  trigger result question = true ->
  contains "Reasons:" result = false ->
  exists d g',
    parse_hiring_decision lim result question g = (Ok (Some d), g')
    /\ reasons d = match extract_scores lim result with
                   | Ok _ => no_reasons
                   | Raise _ => unable_to_parse
                   end.
Proof.
  intros Ht Hn.
  destruct (parse_cases lim result question g Ht)
    as [(st & rs & raw & sc & g' & _ & Hrs & Hraw & _ & Hp)
       | (e & sc & g' & Hraw & _ & _ & Hp)];
    rewrite Hp, Hraw; eexists _, g'; (split; [reflexivity|]); cbn [reasons].
  - rewrite extract_reasons_absent in Hrs by assumption. congruence.
  - reflexivity.
Qed.

Lemma C10_witness :
  exists d g',
    parse_hiring_decision default_max_str_digits lowercase_label_example
      "" [] = (Ok (Some d), g')
    /\ reasons d = no_reasons.
Proof.
  destruct (C10_reasons_label_case_sensitive default_max_str_digits
              lowercase_label_example "" []) as (d & g' & Hd & H).
  - reflexivity.
  - reflexivity.
  - exists d, g'. split; [exact Hd | exact H].
Defined.

(** * Further properties of the code *)

(** ** Facts about [validate_resume_id] *)

Module ResumeIdFacts.
Import PyStr Re ResumeId PyStrFacts.

Lemma hex_step (a : ascii) (s : string) (m : captures)
  (k : string -> captures -> option captures) :
  rmatch re_I hex (String a s) m k = if ishex a then k s m else None.
Proof.
  destruct a as [[] [] [] [] [] [] [] []];
    vm_compute; destruct (k s m); reflexivity.
Qed.

Lemma dash_step (a : ascii) (s : string) (m : captures)
  (k : string -> captures -> option captures) :
  rmatch re_I (lit "-") (String a s) m k
  = if Ascii.eqb a "-" then k s m else None.
Proof.
  destruct a as [[] [] [] [] [] [] [] []]; vm_compute; reflexivity.
Qed.

Lemma rmatch_seq fl (r1 r2 : regex) (s : string) (m : captures)
  (k : string -> captures -> option captures) :
  rmatch fl (RSeq r1 r2) s m k
  = rmatch fl r1 s m (fun s' m' => rmatch fl r2 s' m' k).
Proof. reflexivity. Qed.

Lemma times_hex_scan (n : nat) :
  forall s m k,
    rmatch re_I (times n hex) s m k
    = match hex_run n s with
      | Some s' => k s' m
      | None => None
      end.
Proof.
  induction n as [|n IH]; intros s m k; [reflexivity|].
  cbn [times hex_run]. rewrite rmatch_seq.
  destruct s as [|a s]; [reflexivity|].
  rewrite hex_step. destruct (ishex a); [apply IH | reflexivity].
Qed.

Lemma dash_scan (s : string) (m : captures)
  (k : string -> captures -> option captures) :
  rmatch re_I (lit "-") s m k
  = match dash s with
    | Some s' => k s' m
    | None => None
    end.
Proof.
  destruct s as [|a s]; [reflexivity|].
  rewrite dash_step. unfold dash. destruct (Ascii.eqb a "-"); reflexivity.
Qed.

(** [re.match] of the pattern is the scanner. *)
Lemma match_uuid_scan (s : string) :
  match_here re_I uuid_pattern s = if uuid_scan s then Some [] else None.
Proof.
  unfold match_here, uuid_pattern, uuid_scan, and_then. cbn [seq].
  repeat (rewrite rmatch_seq;
          first [ rewrite times_hex_scan | rewrite dash_scan ];
          match goal with
          | |- context [match ?x with Some _ => _ | None => None end = _] =>
              destruct x; [|reflexivity]
          end).
  rewrite rmatch_seq. cbn [rmatch]. destruct (at_end _); reflexivity.
Qed.

Lemma hex_run_inv (n : nat) :
  forall s rest,
    hex_run n s = Some rest ->
    exists a, s = (a ++ rest)%string /\ hex_digits n a.
Proof.
  induction n as [|n IH]; intros s rest H; cbn in H.
  - injection H as <-. exists EmptyString. repeat split.
  - destruct s as [|c s]; [discriminate|].
    destruct (ishex c) eqn:Hc; [|discriminate].
    destruct (IH _ _ H) as (a & -> & Hl & Ha).
    exists (String c a). repeat split; cbn; [now rewrite Hl | now rewrite Hc].
Qed.

Lemma hex_run_append (n : nat) :
  forall a rest, hex_digits n a -> hex_run n (a ++ rest) = Some rest.
Proof.
  induction n as [|n IH]; intros a rest [Hl Ha].
  - destruct a; [reflexivity | discriminate].
  - destruct a as [|c a]; [discriminate|]. cbn in *.
    apply andb_true_iff in Ha as [-> Ha]. apply IH. split; [lia | exact Ha].
Qed.

Lemma dash_inv (s rest : string) :
  dash s = Some rest -> s = String "-" rest.
Proof.
  destruct s as [|c s]; [discriminate|]. cbn.
  destruct (Ascii.eqb_spec c "-") as [->|]; [|discriminate].
  now intros [= ->].
Qed.

Lemma at_end_inv (s : string) :
  at_end s = true -> s = EmptyString \/ s = newline_string.
Proof.
  destruct s as [|c [|d s]]; cbn [at_end]; intros H; auto; [|discriminate].
  apply Ascii.eqb_eq in H as ->. now right.
Qed.

(** What the scanner accepts. *)
Lemma uuid_scan_sound (s : string) :
  uuid_scan s = true ->
  exists u, uuid_text u /\ (s = u \/ s = (u ++ newline_string)%string).
Proof.
  unfold uuid_scan, and_then. intros H.
  destruct (hex_run 8 s) as [s1|] eqn:E1; [|discriminate].
  destruct (dash s1) as [s2|] eqn:E2; [|discriminate].
  destruct (hex_run 4 s2) as [s3|] eqn:E3; [|discriminate].
  destruct (dash s3) as [s4|] eqn:E4; [|discriminate].
  destruct (hex_run 4 s4) as [s5|] eqn:E5; [|discriminate].
  destruct (dash s5) as [s6|] eqn:E6; [|discriminate].
  destruct (hex_run 4 s6) as [s7|] eqn:E7; [|discriminate].
  destruct (dash s7) as [s8|] eqn:E8; [|discriminate].
  destruct (hex_run 12 s8) as [s9|] eqn:E9; [|discriminate].
  destruct (at_end s9) eqn:E10; [|discriminate].
  apply hex_run_inv in E1 as (a & -> & Ha). apply dash_inv in E2 as ->.
  apply hex_run_inv in E3 as (b & -> & Hb). apply dash_inv in E4 as ->.
  apply hex_run_inv in E5 as (c & -> & Hc). apply dash_inv in E6 as ->.
  apply hex_run_inv in E7 as (d & -> & Hd). apply dash_inv in E8 as ->.
  apply hex_run_inv in E9 as (e & -> & He).
  exists (a ++ "-" ++ b ++ "-" ++ c ++ "-" ++ d ++ "-" ++ e)%string.
  split; [exists a, b, c, d, e; auto 10|].
  apply at_end_inv in E10 as [-> | ->].
  - left. now rewrite append_nil_r.
  - right. repeat (first [rewrite append_assoc | progress cbn [append]]).
    reflexivity.
Qed.

Lemma uuid_scan_complete (u : string) :
  uuid_text u ->
  uuid_scan u = true /\ uuid_scan (u ++ newline_string) = true.
Proof.
  intros (a & b & c & d & e & -> & Ha & Hb & Hc & Hd & He).
  assert (H : forall tail, at_end tail = true ->
            uuid_scan (a ++ "-" ++ b ++ "-" ++ c ++ "-" ++ d ++ "-" ++ e ++ tail)
            = true).
  { intros tail Ht. unfold uuid_scan, and_then. cbn [append].
    rewrite (hex_run_append 8 a _ Ha). cbn [dash Ascii.eqb Bool.eqb].
    rewrite (hex_run_append 4 b _ Hb). cbn [dash Ascii.eqb Bool.eqb].
    rewrite (hex_run_append 4 c _ Hc). cbn [dash Ascii.eqb Bool.eqb].
    rewrite (hex_run_append 4 d _ Hd). cbn [dash Ascii.eqb Bool.eqb].
    rewrite (hex_run_append 12 e _ He). now rewrite Ht. }
  split.
  - rewrite <- (append_nil_r e). apply (H EmptyString). reflexivity.
  - repeat (first [rewrite append_assoc | progress cbn [append]]).
    apply (H newline_string). reflexivity.
Qed.

Lemma accepted_scan (resume_id : string) :
  validate_resume_id resume_id = inr tt <-> uuid_scan resume_id = true.
Proof.
  unfold validate_resume_id. rewrite match_uuid_scan.
  destruct (uuid_scan resume_id); split; (reflexivity || discriminate).
Qed.

Lemma ishex_lower (c : ascii) : ishex (lower_char c) = ishex c.
Proof. destruct c as [[] [] [] [] [] [] [] []]; vm_compute; reflexivity. Qed.

Lemma dash_lower (c : ascii) :
  Ascii.eqb (lower_char c) "-" = Ascii.eqb c "-".
Proof. destruct c as [[] [] [] [] [] [] [] []]; vm_compute; reflexivity. Qed.

Lemma newline_lower (c : ascii) :
  Ascii.eqb (lower_char c) newline = Ascii.eqb c newline.
Proof. destruct c as [[] [] [] [] [] [] [] []]; vm_compute; reflexivity. Qed.

Lemma hex_run_lower {B} (n : nat) (f : string -> option B) :
  forall s,
    and_then (hex_run n (lower s)) f
    = and_then (hex_run n s) (fun r => f (lower r)).
Proof.
  induction n as [|n IH]; intros s; [reflexivity|].
  destruct s as [|c s]; [reflexivity|].
  cbn [lower hex_run]. rewrite ishex_lower.
  destruct (ishex c); [apply IH | reflexivity].
Qed.

Lemma dash_lower_scan {B} (f : string -> option B) (s : string) :
  and_then (dash (lower s)) f = and_then (dash s) (fun r => f (lower r)).
Proof.
  destruct s as [|c s]; [reflexivity|].
  cbn [lower dash]. rewrite dash_lower.
  destruct (Ascii.eqb c "-"); reflexivity.
Qed.

Lemma at_end_lower (s : string) : at_end (lower s) = at_end s.
Proof.
  destruct s as [|c [|d s]]; cbn [lower at_end]; try reflexivity.
  apply newline_lower.
Qed.

Lemma uuid_scan_lower (s : string) : uuid_scan (lower s) = uuid_scan s.
Proof.
  unfold uuid_scan.
  assert (Hend : forall r : string,
             (if at_end (lower r) then Some tt else None)
             = (if at_end r then Some tt else None))
    by (intros r; now rewrite at_end_lower).
  assert (Hext : forall (x : option string) (f g : string -> option unit),
             (forall r, f r = g r) -> and_then x f = and_then x g)
    by (intros [r|] f g H; [apply H | reflexivity]).
  rewrite hex_run_lower.
  erewrite Hext; [reflexivity|]. intros r1. rewrite dash_lower_scan.
  apply Hext. intros r2. rewrite hex_run_lower.
  apply Hext. intros r3. rewrite dash_lower_scan.
  apply Hext. intros r4. rewrite hex_run_lower.
  apply Hext. intros r5. rewrite dash_lower_scan.
  apply Hext. intros r6. rewrite hex_run_lower.
  apply Hext. intros r7. rewrite dash_lower_scan.
  apply Hext. intros r8. rewrite hex_run_lower.
  apply Hext. intros r9. apply Hend.
Qed.

(** X1.  [validate_resume_id] returns exactly on the 8-4-4-4-12
    hexadecimal texts, in either case, and on such a text followed by
    one newline, which [$] lets pass; on anything else it raises. *)
Theorem X1_accepted_resume_ids (resume_id : string) :
  validate_resume_id resume_id = inr tt
  <-> exists u,
        uuid_text u
        /\ (resume_id = u \/ resume_id = (u ++ newline_string)%string).
Proof.
  rewrite accepted_scan. split.
  - apply uuid_scan_sound.
  - intros (u & Hu & [-> | ->]); now apply uuid_scan_complete.
Qed.

Lemma X1_witness :
  exists u,
    uuid_text u
    /\ ("123E4567-e89b-12d3-a456-426614174000" ++ newline_string = u
        \/ "123E4567-e89b-12d3-a456-426614174000" ++ newline_string
           = (u ++ newline_string)%string).
Proof.
  exact (proj1 (X1_accepted_resume_ids
                  ("123E4567-e89b-12d3-a456-426614174000" ++ newline_string))
           eq_refl).
Defined.

Lemma all_chars_weaken (p q : ascii -> bool) (s : string) :
  (forall c, p c = true -> q c = true) ->
  all_chars p s = true -> all_chars q s = true.
Proof.
  intros Hpq. induction s as [|c s IH]; cbn; [reflexivity|].
  intros H. apply andb_true_iff in H as [Hc Hs].
  now rewrite (Hpq _ Hc), IH.
Qed.

(** X2.  An accepted identifier has 36 characters, or 37 with the final
    newline, and consists of hexadecimal digits, hyphens and that
    newline only; in particular it holds no path separator, dot or
    blank inside. *)
Theorem X2_accepted_ids_are_plain (resume_id : string) :
  validate_resume_id resume_id = inr tt ->
  (length resume_id = 36%nat \/ length resume_id = 37%nat)
  /\ all_chars id_char resume_id = true.
Proof.
  intros H. apply accepted_scan, uuid_scan_sound in H
    as (u & (a & b & c & d & e & -> & [La Ha] & [Lb Hb] & [Lc Hc]
             & [Ld Hd] & [Le He]) & Hr).
  assert (Hx : forall s, all_chars ishex s = true ->
                         all_chars id_char s = true).
  { intros s. apply all_chars_weaken. intros ch Hch. unfold id_char.
    now rewrite Hch. }
  assert (Hlen : length (a ++ "-" ++ b ++ "-" ++ c ++ "-" ++ d ++ "-" ++ e)
                 = 36%nat).
  { rewrite !length_append. cbn [length]. lia. }
  assert (Hall : all_chars id_char
                   (a ++ "-" ++ b ++ "-" ++ c ++ "-" ++ d ++ "-" ++ e) = true).
  { rewrite !all_chars_append.
    rewrite (Hx a Ha), (Hx b Hb), (Hx c Hc), (Hx d Hd), (Hx e He).
    reflexivity. }
  destruct Hr as [-> | ->].
  - split; [left; exact Hlen | exact Hall].
  - split.
    + right. rewrite length_append, Hlen. reflexivity.
    + rewrite all_chars_append, Hall. reflexivity.
Qed.

Lemma X2_witness :
  (length "123e4567-e89b-12d3-a456-426614174000" = 36%nat
   \/ length "123e4567-e89b-12d3-a456-426614174000" = 37%nat)
  /\ all_chars id_char "123e4567-e89b-12d3-a456-426614174000" = true.
Proof.
  apply X2_accepted_ids_are_plain. reflexivity.
Defined.

(** X3.  The check ignores case: an identifier and its lower-cased
    form are accepted or rejected alike. *)
Theorem X3_validation_ignores_case (resume_id : string) :
  validate_resume_id (lower resume_id) = validate_resume_id resume_id.
Proof.
  unfold validate_resume_id. rewrite !match_uuid_scan, uuid_scan_lower.
  reflexivity.
Qed.

End ResumeIdFacts.

(** ** More facts about [parse_hiring_decision] *)

Module ParseFacts.
Import PyStr PyInt Re ReSpec PyNum Main Cases MoreCases PyStrFacts ReFacts MainFacts.

Lemma contains_append_r (w x y : string) :
  contains w y = true -> contains w (x ++ y) = true.
Proof.
  intros H. apply contains_inv in H as (pre & post & ->).
  rewrite <- append_assoc. apply contains_append.
Qed.

Lemma contains_append_l (w x y : string) :
  contains w x = true -> contains w (x ++ y) = true.
Proof.
  intros H. apply contains_inv in H as (pre & post & ->).
  rewrite !append_assoc. apply contains_append.
Qed.

(** A match of the decision pattern needs the word in the text. *)
Lemma decision_match_mentions_hired (result : string) (m : captures) :
  search re_I decision_re result = Some m ->
  contains "hired" (lower result) = true.
Proof.
  intros H. apply search_sound in H as (pre & v & post & -> & H).
  unfold decision_re in H. cbn [seq matches spaces] in H.
  destruct H as (v1 & v2 & m2 & -> & _ & v3 & v4 & m3 & -> & _ & H).
  destruct H as (g & v5 & m4 & -> & (m5 & Hg & _) & _).
  rewrite !lower_append.
  apply contains_append_r, contains_append_l, contains_append_r,
    contains_append_r, contains_append_l.
  destruct Hg as [Hg | Hg].
  - apply matches_lit in Hg as (_ & _ & Hg). cbn [ignorecase re_I] in Hg.
    rewrite Hg. reflexivity.
  - destruct Hg as (a & b & ma & -> & _ & w & c & mb & -> & _
                    & h & e & mc & -> & Hh & _).
    apply matches_lit in Hh as (_ & _ & Hh). cbn [ignorecase re_I] in Hh.
    rewrite !lower_append, Hh.
    apply contains_append_r, contains_append_r, contains_append_l.
    reflexivity.
Qed.

(** How the status of a triggered call is determined. *)
Lemma status_of_unmatched
  (lim : nat) (result question : string) (g : rng) :
  trigger result question = true ->
  search re_I decision_re result = None ->
  exists d g',
    parse_hiring_decision lim result question g = (Ok (Some d), g')
    /\ status d = match extract_scores lim result with
                  | Ok _ => if contains "hired" (lower result)
                            then "hired" else "not hired"
                  | Raise _ => "not hired"
                  end.
Proof.
  intros Ht Hs.
  destruct (parse_cases lim result question g Ht)
    as [(st & rs & raw & sc & g' & Hst & _ & Hraw & _ & Hp)
       | (e & sc & g' & Hraw & _ & _ & Hp)];
    rewrite Hp, Hraw; eexists _, g'; (split; [reflexivity|]); cbn [status].
  - unfold extract_status in Hst. rewrite Hs in Hst. now injection Hst.
  - reflexivity.
Qed.

Lemma run_goodbye_example :
  parse_hiring_decision default_max_str_digits goodbye_example
    "end interview" []
  = (Ok (Some {| status := "not hired"; reasons := no_reasons;
                 scores := {| technical_depth := 40; communication := 45;
                              problem_solving := 40;
                              total := PyFloat (weighted_total 40 45 40) |} |}),
     []).
Proof. vm_compute. reflexivity. Qed.

(** [randint] takes one draw. *)
Lemma randint_state (a b : Z) (g : rng) : snd (randint a b g) = tl g.
Proof. destruct g; reflexivity. Qed.

Lemma randint_run (a b : Z) (g : rng) :
  exists v, randint a b g = (Ok v, tl g).
Proof. destruct g; cbn; eauto. Qed.

Lemma fallback_scores_draws (st : string) (g : rng) :
  exists sc, fallback_scores st g = (Ok sc, skipn 3 g).
Proof.
  unfold fallback_scores, bind, ret.
  assert (Hskip : tl (tl (tl g)) = skipn 3 g)
    by (destruct g as [|? [|? [|? ?]]]; reflexivity).
  rewrite <- Hskip.
  destruct (String.eqb st "hired").
  - destruct (randint_run 60 85 g) as (t & ->).
    destruct (randint_run 65 90 (tl g)) as (c & ->).
    destruct (randint_run 60 85 (tl (tl g))) as (p & ->). eauto.
  - destruct (randint_run 40 65 g) as (t & ->).
    destruct (randint_run 45 70 (tl g)) as (c & ->).
    destruct (randint_run 40 65 (tl (tl g))) as (p & ->). eauto.
Qed.

Lemma ultimate_fallback_draws (g : rng) :
  exists d, ultimate_fallback g = (Ok d, skipn 3 g).
Proof.
  unfold ultimate_fallback, bind, ret.
  assert (Hskip : tl (tl (tl g)) = skipn 3 g)
    by (destruct g as [|? [|? [|? ?]]]; reflexivity).
  rewrite <- Hskip.
  destruct (randint_run 40 65 g) as (t & ->).
  destruct (randint_run 45 70 (tl g)) as (c & ->).
  destruct (randint_run 40 65 (tl (tl g))) as (p & ->). eauto.
Qed.

Lemma rstrip_idempotent (s : string) : rstrip (rstrip s) = rstrip s.
Proof.
  induction s as [|c s IH]; [reflexivity|]. cbn [rstrip].
  destruct (rstrip s) as [|d r] eqn:E.
  - destruct (isspace c) eqn:Hc; [reflexivity|]. cbn. now rewrite Hc.
  - cbn [rstrip]. cbn [rstrip] in IH. rewrite IH. reflexivity.
Qed.

Lemma lstrip_rstrip (s : string) :
  lstrip (rstrip (lstrip s)) = rstrip (lstrip s).
Proof.
  induction s as [|c s IH]; [reflexivity|]. cbn [lstrip].
  destruct (isspace c) eqn:Hc; [exact IH|].
  cbn [rstrip]. destruct (rstrip s) as [|d r].
  - rewrite Hc. cbn. now rewrite Hc.
  - cbn. now rewrite Hc.
Qed.

Lemma strip_idempotent (s : string) : strip (strip s) = strip s.
Proof.
  unfold strip. now rewrite lstrip_rstrip, rstrip_idempotent.
Qed.

Lemma extract_reasons_stripped (result rs : string) :
  extract_reasons result = Ok rs -> strip rs = rs.
Proof.
  unfold extract_reasons.
  destruct (search re_DOTALL reasons_re result) as [m|].
  - destruct (group 1 m) as [v|]; [|discriminate].
    intros [= <-]. apply strip_idempotent.
  - intros [= <-]. reflexivity.
Qed.

End ParseFacts.

Import MoreCases ParseFacts.

(** X4.  With the question "end interview", in any letter case, the
    call returns a decision for every text, the empty one included: it
    never returns the null value, so a caller that passes this question
    cannot observe "no decision". *)
Theorem X4_end_interview_always_decides
  (lim : nat) (result question : string) (g : rng) :
  lower question = "end interview" ->
  exists d g',
    parse_hiring_decision lim result question g = (Ok (Some d), g').
Proof.
  intros Hq.
  assert (Ht : trigger result question = true).
  { unfold trigger. rewrite Hq. cbn. now rewrite !orb_true_r. }
  destruct (parse_cases lim result question g Ht)
    as [(st & rs & raw & sc & g' & _ & _ & _ & _ & Hp)
       | (e & sc & g' & _ & _ & _ & Hp)]; rewrite Hp; eauto.
Qed.

Lemma X4_witness :
  exists d g',
    parse_hiring_decision default_max_str_digits "" "End Interview" [7; 8; 9]
    = (Ok (Some d), g').
Proof.
  apply X4_end_interview_always_decides. reflexivity.
Defined.



(** X6.  When the decision pattern is not found and the lower-cased
    text contains "hired", the status is "hired", also when the text
    says "not hired"; only when reading the scores raised is it
    "not hired". *)
Theorem X6_unmatched_mention_means_hired
  (lim : nat) (result question : string) (g : rng) :
  search re_I decision_re result = None ->
  contains "hired" (lower result) = true ->
  exists d g',
    parse_hiring_decision lim result question g = (Ok (Some d), g')
    /\ status d = match extract_scores lim result with
                  | Ok _ => "hired"
                  | Raise _ => "not hired"
                  end.
Proof.
  intros Hs Hc.
  assert (Ht : trigger result question = true)
    by (unfold trigger; now rewrite Hc).
  destruct (status_of_unmatched lim result question g Ht Hs)
    as (d & g' & Hp & Hst).
  exists d, g'. split; [exact Hp|]. now rewrite Hst, Hc.
Qed.

Lemma X6_witness :
  exists d g',
    parse_hiring_decision default_max_str_digits
      "The candidate is NOT HIRED at this time." "next question" []
    = (Ok (Some d), g')
    /\ status d = "hired".
Proof.
  destruct (X6_unmatched_mention_means_hired default_max_str_digits
              "The candidate is NOT HIRED at this time." "next question" []
              eq_refl eq_refl) as (d & g' & H & Hst).
  exists d, g'. split; [exact H | exact Hst].
Defined.

(** X7.  A returned decision takes no random draw when the four
    extracted scores are valid, and exactly three draws, one per
    sub-score, whenever the scores are synthesized. *)
Theorem X7_draws_taken
  (lim : nat) (result question : string) (g g' : rng) (d : Decision) :
  parse_hiring_decision lim result question g = (Ok (Some d), g') ->
  g' = if synthesized lim result then skipn 3 g else g.
Proof.
  intros H. pose proof (returned_triggered _ _ _ _ _ _ H) as Ht.
  rewrite parse_unfold, Ht in H. unfold synthesized.
  destruct (try_body_cases lim result g)
    as [(st & rs & raw & sc & g1 & _ & _ & Hraw & Hsc & Hb)
       | (e & Hraw & Hb)]; rewrite Hb in H; rewrite Hraw.
  - injection H as _ <-.
    destruct raw as [[[[t c] p] tot]|].
    + destruct (valid_scores (t, c, p, tot)) eqn:Hv; cbn [negb].
      * rewrite reconcile_valid in Hsc by assumption. now injection Hsc.
      * rewrite reconcile_fallback in Hsc by assumption.
        destruct (fallback_scores_draws st g) as (sc' & E).
        rewrite E in Hsc. now injection Hsc.
    + rewrite reconcile_fallback in Hsc by exact I.
      destruct (fallback_scores_draws st g) as (sc' & E).
      rewrite E in Hsc. now injection Hsc.
  - destruct (ultimate_fallback_draws g) as (d' & E). rewrite E in H.
    now injection H.
Qed.

Lemma X7_witness :
  [4; 5] = if synthesized default_max_str_digits total_95_example
           then skipn 3 [4; 5] else [4; 5].
Proof.
  exact (X7_draws_taken default_max_str_digits total_95_example "" [4; 5]
           [4; 5] _ (run_total_95_example default_max_str_digits "" [4; 5])).
Defined.

(** X8.  The reasons of a returned decision carry no blank at either
    end: stripping them again changes nothing. *)
Theorem X8_reasons_are_stripped
  (lim : nat) (result question : string) (g g' : rng) (d : Decision) :
  parse_hiring_decision lim result question g = (Ok (Some d), g') ->
  strip (reasons d) = reasons d.
Proof.
  intros H. pose proof (returned_triggered _ _ _ _ _ _ H) as Ht.
  destruct (parse_cases lim result question g Ht)
    as [(st & rs & raw & sc & g1 & _ & Hrs & _ & _ & Hp)
       | (e & sc & g1 & _ & _ & _ & Hp)];
    rewrite Hp in H; injection H as <- <-; cbn [reasons].
  - now apply (extract_reasons_stripped result).
  - reflexivity.
Qed.

Lemma X8_witness :
  strip "Strong system design skills" = "Strong system design skills".
Proof.
  exact (X8_reasons_are_stripped default_max_str_digits spec_example "" []
           [] _ (run_spec_example default_max_str_digits "" [])).
Defined.

(** ** When reading the scores can raise *)

Module ScoreFacts.
Import PyStr PyInt Re ReSpec PyNum Main Cases MoreCases PyStrFacts ReFacts MainFacts.

Lemma matches_digits fl (v : string) (m m1 : captures) :
  matches fl digits v m m1 -> m1 = m /\ digit_run v.
Proof.
  unfold digits. cbn [matches].
  intros (v1 & v2 & m2 & -> & (a & -> & Ha & ->) & Hv & ->).
  split; [reflexivity|]. split; [discriminate|].
  change (isdigit a = true) in Ha. change (all_chars isdigit v2 = true) in Hv.
  cbn [append all_chars]. now rewrite Ha, Hv.
Qed.

Ltac peel_lit H :=
  let v := fresh "l" in let w := fresh "w" in
  let m := fresh "m" in let Hl := fresh "Hl" in
  destruct H as (v & w & m & -> & Hl & H);
  apply matches_lit in Hl as (-> & _ & _).

Ltac peel_spaces H :=
  let v := fresh "b" in let w := fresh "w" in let m := fresh "m" in
  destruct H as (v & w & m & -> & [_ ->] & H).

Ltac peel_group H g Hg :=
  let w := fresh "w" in let m := fresh "m" in let m' := fresh "m" in
  destruct H as (g & w & m & -> & (m' & Hg & ->) & H);
  apply matches_digits in Hg as (-> & Hg).

(** A match of the score pattern captures four digit runs of the
    text. *)
Lemma scores_match_shape (result : string) (m : captures) :
  search re_I scores_re result = Some m ->
  exists g1 g2 g3 g4,
    m = [(4%nat, g4); (3%nat, g3); (2%nat, g2); (1%nat, g1)]
    /\ digit_run g1 /\ digit_run g2 /\ digit_run g3 /\ digit_run g4
    /\ (length g1 <= length result)%nat /\ (length g2 <= length result)%nat
    /\ (length g3 <= length result)%nat /\ (length g4 <= length result)%nat.
Proof.
  intros H. apply search_sound in H as (pre & v & post & -> & H).
  unfold scores_re in H. cbn [seq matches spaces] in H.
  peel_lit H. peel_spaces H. peel_group H g1 Hg1. peel_lit H. peel_spaces H.
  peel_lit H. peel_spaces H. peel_group H g2 Hg2. peel_lit H. peel_spaces H.
  peel_lit H. peel_spaces H. peel_group H g3 Hg3. peel_lit H. peel_spaces H.
  peel_lit H. peel_spaces H. peel_group H g4 Hg4. peel_lit H.
  destruct H as [-> ->].
  exists g1, g2, g3, g4. split; [reflexivity|].
  do 4 (split; [assumption|]).
  rewrite !length_append. repeat split; lia.
Qed.

Lemma py_int_ok (lim : nat) (s : string) :
  digit_run s ->
  lim = 0%nat \/ (length s <= str_digits_check_threshold)%nat ->
  exists z, py_int lim s = Ok z.
Proof.
  intros [Hne Hd] Hlim. unfold py_int.
  destruct s as [|c s]; [now elim Hne|].
  rewrite Hd. cbn [negb].
  assert (too_many_digits lim (length (String c s)) = false) as ->; [|eauto].
  unfold too_many_digits. destruct Hlim as [-> | Hl].
  - now rewrite andb_false_r.
  - apply Nat.ltb_ge in Hl. now rewrite Hl.
Qed.

(** Reading the scores succeeds when the digit limit is off or the
    text is not longer than the threshold below which it is not
    checked. *)
Lemma extract_scores_ok (lim : nat) (result : string) :
  lim = 0%nat \/ (length result <= str_digits_check_threshold)%nat ->
  exists raw, extract_scores lim result = Ok raw.
Proof.
  intros Hlim. unfold extract_scores.
  destruct (search re_I scores_re result) as [m|] eqn:E; [|eauto].
  apply scores_match_shape in E
    as (g1 & g2 & g3 & g4 & -> & H1 & H2 & H3 & H4 & L1 & L2 & L3 & L4).
  unfold group_int. cbn [group Nat.eqb].
  destruct (py_int_ok lim g1 H1) as (z1 & ->); [destruct Hlim; [auto | right; lia]|].
  destruct (py_int_ok lim g2 H2) as (z2 & ->); [destruct Hlim; [auto | right; lia]|].
  destruct (py_int_ok lim g3 H3) as (z3 & ->); [destruct Hlim; [auto | right; lia]|].
  destruct (py_int_ok lim g4 H4) as (z4 & ->); [destruct Hlim; [auto | right; lia]|].
  eauto.
Qed.

End ScoreFacts.

Import ScoreFacts.

(** X9.  The body of the [try] can only raise through the limit on the
    digits of an integer: when that limit is switched off, or the text
    has at most 640 characters, the body returns and the decision of a
    triggered call is the one it built, never the "ultimate fallback". *)
Theorem X9_short_texts_never_raise
  (lim : nat) (result question : string) (g : rng) :
  lim = 0%nat \/ (length result <= 640)%nat ->
  trigger result question = true ->
  exists d g',
    try_body lim result g = (Ok d, g')
    /\ parse_hiring_decision lim result question g = (Ok (Some d), g').
Proof.
  intros Hlim Ht. rewrite parse_unfold, Ht.
  destruct (extract_scores_ok lim result Hlim) as (raw & Hraw).
  destruct (try_body_cases lim result g)
    as [(st & rs & raw' & sc & g' & _ & _ & _ & _ & ->)
       | (e & Hraw' & _)]; [eauto | congruence].
Qed.

Lemma X9_witness :
  exists d g',
    try_body default_max_str_digits spec_example [] = (Ok d, g')
    /\ parse_hiring_decision default_max_str_digits spec_example "" []
       = (Ok (Some d), g').
Proof.
  apply X9_short_texts_never_raise.
  - right. vm_compute. repeat constructor.
  - reflexivity.
Defined.

(** ** Facts about the converted recording's path *)

Module VoiceChatFacts.
Import PyStr VoiceChat PyStrFacts.

Lemma endswith_refl (s : string) : endswith s s = true.
Proof. destruct s; cbn [endswith]; now rewrite String.eqb_refl. Qed.

Lemma endswith_append (a b : string) : endswith (a ++ b) b = true.
Proof.
  induction a as [|c a IH].
  - apply endswith_refl.
  - cbn [append endswith]. rewrite IH. now destruct (String.eqb _ _).
Qed.

Lemma endswith_inv (s suffix : string) :
  endswith s suffix = true -> exists pre, s = (pre ++ suffix)%string.
Proof.
  induction s as [|c s IH]; cbn [endswith].
  - destruct (String.eqb_spec "" suffix) as [<-|]; [|discriminate].
    now exists EmptyString.
  - destruct (String.eqb_spec (String c s) suffix) as [<-|].
    + now exists EmptyString.
    + intros H. destruct (IH H) as (pre & ->). now exists (String c pre).
Qed.

Lemma before_last_none (sep : ascii) (s : string) :
  has_char sep s = false -> before_last sep s = None.
Proof.
  unfold has_char. rewrite negb_false_iff.
  induction s as [|c s IH]; [reflexivity|]. cbn [all_chars before_last].
  intros H. apply andb_true_iff in H as [Hc Hs].
  rewrite (IH Hs). apply negb_true_iff in Hc. now rewrite Hc.
Qed.

(** The text before the last separator of [base ++ sep ++ ext], for an
    [ext] without separator, is [base]. *)
Lemma before_last_append (sep : ascii) (base ext : string) :
  has_char sep ext = false ->
  before_last sep (base ++ String sep ext) = Some base.
Proof.
  intros H. induction base as [|c base IH]; cbn [append before_last].
  - rewrite (before_last_none _ _ H). now rewrite Ascii.eqb_refl.
  - now rewrite IH.
Qed.

Lemma append_inv_head (a b c : string) :
  (a ++ b)%string = (a ++ c)%string -> b = c.
Proof. induction a as [|x a IH]; cbn; [auto | intros [= H]; auto]. Qed.

Lemma has_char_separator (sep : ascii) (a b : string) :
  has_char sep (a ++ String sep b) = true.
Proof.
  unfold has_char. apply negb_true_iff.
  induction a as [|c a IH]; cbn [append all_chars].
  - now rewrite Ascii.eqb_refl.
  - rewrite IH. apply andb_false_r.
Qed.

End VoiceChatFacts.

Import VoiceChat VoiceChatFacts.

(** X10.  The path of the converted recording always ends in ".wav",
    and it is the path of the uploaded recording exactly when that one
    already ends in ".wav" (so the conversion then writes over its own
    input). *)
Theorem X10_wav_path_ends_in_wav (temp_audio_path : string) :
  endswith (wav_audio_path temp_audio_path) ".wav" = true
  /\ (wav_audio_path temp_audio_path = temp_audio_path
      <-> endswith temp_audio_path ".wav" = true).
Proof.
  unfold wav_audio_path.
  destruct (endswith temp_audio_path ".wav") eqn:E.
  - split; [exact E | tauto].
  - split; [apply endswith_append|]. split; [|discriminate].
    intros H. rewrite <- H, endswith_append in E. discriminate.
Qed.

(** X11.  For a path [base.ext] whose extension holds no further dot,
    the converted path is [base.wav]: only the extension is replaced,
    whatever it was. *)
Theorem X11_wav_path_replaces_extension (base ext : string) :
  has_char "." ext = false ->
  wav_audio_path (base ++ "." ++ ext) = (base ++ ".wav")%string.
Proof.
  intros Hext. unfold wav_audio_path, rsplit1_head.
  destruct (endswith (base ++ "." ++ ext) ".wav") eqn:E.
  - apply endswith_inv in E as (pre & E).
    assert (Hb : before_last "." (base ++ "." ++ ext) = Some base)
      by now apply before_last_append.
    rewrite E in Hb.
    change (pre ++ ".wav")%string with (pre ++ String "." "wav")%string in Hb.
    rewrite before_last_append in Hb by reflexivity.
    injection Hb as ->. exact E.
  - change (base ++ "." ++ ext)%string with (base ++ String "." ext)%string.
    now rewrite before_last_append.
Qed.

Lemma X11_witness :
  wav_audio_path ("/tmp/tmpk3v9_x1a" ++ "." ++ "mp3") = "/tmp/tmpk3v9_x1a.wav".
Proof.
  exact (X11_wav_path_replaces_extension "/tmp/tmpk3v9_x1a" "mp3" eq_refl).
Defined.

(** X12.  A path without any dot, as the temporary file of an upload
    whose name has no extension, gets ".wav" appended: the converted
    file is a second file beside the uploaded one. *)
Theorem X12_wav_path_without_dot (temp_audio_path : string) :
  has_char "." temp_audio_path = false ->
  wav_audio_path temp_audio_path = (temp_audio_path ++ ".wav")%string.
Proof.
  intros H. unfold wav_audio_path, rsplit1_head.
  rewrite (before_last_none _ _ H).
  destruct (endswith temp_audio_path ".wav") eqn:E; [|reflexivity].
  apply endswith_inv in E as (pre & ->).
  rewrite has_char_separator in H. discriminate.
Qed.

Lemma X12_witness :
  wav_audio_path "/tmp/tmpk3v9_x1a" = "/tmp/tmpk3v9_x1a.wav".
Proof.
  exact (X12_wav_path_without_dot "/tmp/tmpk3v9_x1a" eq_refl).
Defined.

(** ** Running the matcher forwards *)

Module ReSteps.
Import PyStr Re ReSpec PyStrFacts ReFacts MoreCases MainFacts ResumeIdFacts.

(** Where a star over [c] must stop: at the end of the text or before
    a character that [c] does not match. *)
Definition stops (fl : flags) (c : cset) (s : string) : bool :=
  match s with
  | EmptyString => true
  | String a _ => negb (cmatch fl c a)
  end.

Lemma cmatch_lit_refl fl (c : ascii) : cmatch fl (CLit c) c = true.
Proof. cbn. destruct (ignorecase fl); apply Ascii.eqb_refl. Qed.

(** A literal matches itself. *)
Lemma step_lit fl (w : string) :
  forall s m k, rmatch fl (lit w) (w ++ s) m k = k s m.
Proof.
  induction w as [|c w IH]; intros s m k; [reflexivity|].
  cbn [lit append]. cbn [rmatch]. rewrite cmatch_lit_refl. apply IH.
Qed.

Lemma seq_lit fl (w : string) (r : regex) (s : string) (m : captures)
  (k : string -> captures -> option captures) (x : option captures) :
  rmatch fl r s m k = x ->
  rmatch fl (RSeq (lit w) r) (w ++ s) m k = x.
Proof. intros <-. cbn [rmatch]. now rewrite step_lit. Qed.

(** A greedy star takes the whole run when what follows then matches. *)
Lemma step_star_greedy fl (c : cset) (run s : string) (m : captures)
  (k : string -> captures -> option captures) (x : captures) :
  all_chars (cmatch fl c) run = true ->
  stops fl c s = true ->
  k s m = Some x ->
  rmatch fl (RStar c true) (run ++ s) m k = Some x.
Proof.
  intros Hrun Hs Hk. induction run as [|a run IH].
  - cbn [append]. destruct s as [|b s]; [exact Hk|].
    cbn in Hs. apply negb_true_iff in Hs. cbn [rmatch]. now rewrite Hs.
  - cbn [all_chars] in Hrun. apply andb_true_iff in Hrun as [Ha Hrun].
    specialize (IH Hrun). cbn [append]. cbn [rmatch] in *.
    rewrite Ha. now rewrite IH.
Qed.

Lemma seq_spaces fl (r : regex) (run s : string) (m : captures)
  (k : string -> captures -> option captures) (x : captures) :
  all_chars isspace run = true ->
  stops fl CSpace s = true ->
  rmatch fl r s m k = Some x ->
  rmatch fl (RSeq spaces r) (run ++ s) m k = Some x.
Proof.
  intros Hrun Hs Hk. cbn [rmatch spaces].
  now apply (step_star_greedy fl CSpace run s m
               (fun s' m' => rmatch fl r s' m' k)).
Qed.

Lemma digit_not_space (a : ascii) : isdigit a = true -> isspace a = false.
Proof.
  destruct a as [[] [] [] [] [] [] [] []]; vm_compute;
    (reflexivity || discriminate).
Qed.

Lemma stops_space_digits fl (d s : string) :
  digit_run d -> stops fl CSpace (d ++ s) = true.
Proof.
  intros [Hne Hd]. destruct d as [|a d]; [now elim Hne|].
  cbn in *. apply andb_true_iff in Hd as [Ha _].
  now rewrite (digit_not_space a Ha).
Qed.

Lemma rmatch_group fl (n : nat) (r : regex) (s : string) (m : captures)
  (k : string -> captures -> option captures) :
  rmatch fl (RGroup n r) s m k
  = rmatch fl r s m
      (fun s' m' => k s' ((n, take (length s - length s') s) :: m')).
Proof. reflexivity. Qed.

Lemma rmatch_char fl (c : cset) (a : ascii) (s : string) (m : captures)
  (k : string -> captures -> option captures) :
  rmatch fl (RChar c) (String a s) m k
  = if cmatch fl c a then k s m else None.
Proof. reflexivity. Qed.

(** A group of digits captures the whole run before a non-digit. *)
Lemma seq_digits fl (n : nat) (r : regex) (d s : string) (m : captures)
  (k : string -> captures -> option captures) (x : captures) :
  digit_run d ->
  stops fl CDigit s = true ->
  rmatch fl r s ((n, d) :: m) k = Some x ->
  rmatch fl (RSeq (RGroup n digits) r) (d ++ s) m k = Some x.
Proof.
  intros [Hne Hd] Hs Hk. destruct d as [|a d]; [now elim Hne|].
  cbn [all_chars] in Hd. apply andb_true_iff in Hd as [Ha Hd].
  rewrite rmatch_seq, rmatch_group. unfold digits. rewrite rmatch_seq.
  change (String a d ++ s)%string with (String a (d ++ s)) at 1.
  rewrite rmatch_char.
  change (cmatch fl CDigit a) with (isdigit a). rewrite Ha.
  apply step_star_greedy; [exact Hd | exact Hs |].
  now rewrite take_suffix_length.
Qed.

(** A lazy star stops at the first place where what follows matches. *)
Lemma step_star_lazy fl (c : cset) (s : string) (m : captures)
  (k : string -> captures -> option captures) (x : captures) :
  forall run,
    all_chars (cmatch fl c) run = true ->
    (forall r1 r2, run = (r1 ++ r2)%string -> r2 <> EmptyString ->
                   k (r2 ++ s)%string m = None) ->
    k s m = Some x ->
    rmatch fl (RStar c false) (run ++ s) m k = Some x.
Proof.
  induction run as [|a run IH]; intros Hrun Hfail Hk.
  - cbn [append]. destruct s as [|b s]; [exact Hk|].
    cbn [rmatch]. rewrite Hk. now destruct (cmatch fl c b).
  - cbn [all_chars] in Hrun. apply andb_true_iff in Hrun as [Ha Hrun].
    cbn [append]. cbn [rmatch]. rewrite Ha.
    change (String a (run ++ s)) with (String a run ++ s)%string.
    rewrite (Hfail EmptyString (String a run) eq_refl) by discriminate.
    apply IH; [exact Hrun | | exact Hk].
    intros r1 r2 -> Hne. apply (Hfail (String a r1) r2); [reflexivity | exact Hne].
Qed.

Lemma search_here fl (r : regex) (s : string) (m : captures) :
  match_here fl r s = Some m -> search fl r s = Some m.
Proof. intros H. destruct s; cbn [search]; now rewrite H. Qed.

(** [take] and [prefix] *)
Lemma take_take (n k : nat) (s : string) :
  (n <= k)%nat -> take n (take k s) = take n s.
Proof.
  revert k s. induction n as [|n IH]; intros k s H; [now destruct (take k s), s|].
  destruct k as [|k]; [lia|]. destruct s as [|c s]; [reflexivity|].
  cbn. rewrite IH by lia. reflexivity.
Qed.

Lemma take_append_take (n k : nat) (x y : string) :
  (n <= length x + k)%nat ->
  take n (x ++ y) = take n (x ++ take k y).
Proof.
  revert n. induction x as [|c x IH]; intros n H; cbn [append].
  - cbn in H. now rewrite take_take.
  - destruct n as [|n]; [reflexivity|]. cbn [take length] in *.
    rewrite IH by lia. reflexivity.
Qed.

Lemma lower_take (n : nat) (s : string) : lower (take n s) = take n (lower s).
Proof.
  revert s. induction n as [|n IH]; intros [|c s]; cbn; try reflexivity.
  now rewrite IH.
Qed.

Lemma length_lower (s : string) : length (lower s) = length s.
Proof. induction s as [|c s IH]; cbn; [reflexivity | now rewrite IH]. Qed.

Lemma take_prefix (w t : string) :
  take (length w) t = w -> prefix w t = true.
Proof.
  revert t. induction w as [|c w IH]; intros t H; [now destruct t|].
  destruct t as [|a t]; [discriminate|]. cbn in *.
  injection H as -> H. destruct (ascii_dec c c) as [_|n]; [auto | now elim n].
Qed.

Lemma prefix_take (w t : string) :
  prefix w t = true -> take (length w) t = w.
Proof.
  intros H. apply prefix_inv in H as (post & ->). apply take_append.
Qed.

(** The text compared with a literal: lower-cased under [re.I]. *)
Definition key (fl : flags) (s : string) : string :=
  if ignorecase fl then lower s else s.

Lemma key_take fl (n : nat) (s : string) : key fl (take n s) = take n (key fl s).
Proof. unfold key. destruct (ignorecase fl); [apply lower_take | reflexivity]. Qed.

Lemma length_key fl (s : string) : length (key fl s) = length s.
Proof. unfold key. destruct (ignorecase fl); [apply length_lower | reflexivity]. Qed.

(** A pattern that begins with a literal only matches where the text
    begins with it. *)
Lemma lit_match_prefix fl (w : string) (r : regex) (t : string)
  (m m' : captures) (k : string -> captures -> option captures) :
  rmatch fl (RSeq (lit w) r) t m k = Some m' ->
  prefix (key fl w) (key fl t) = true.
Proof.
  intros H. apply rmatch_sound in H as (v & s1 & m1 & -> & Hm & _).
  cbn [matches] in Hm. destruct Hm as (v1 & v2 & m2 & -> & Hl & _).
  apply matches_lit in Hl as (_ & Hlen & Hv).
  apply take_prefix. rewrite length_key, <- key_take, <- Hlen.
  rewrite !append_assoc, take_append.
  unfold key. destruct (ignorecase fl); congruence.
Qed.

(** A search passes over a stretch of text in which the leading literal
    of the pattern does not begin. *)
Lemma search_skip fl (w : string) (r : regex) (s : string) :
  forall p,
    contains (key fl w) (key fl (p ++ take (Nat.pred (length w)) s)) = false ->
    search fl (RSeq (lit w) r) (p ++ s) = search fl (RSeq (lit w) r) s.
Proof.
  induction p as [|a p IH]; intros H; [reflexivity|].
  cbn [append search].
  destruct (match_here fl (RSeq (lit w) r) (String a (p ++ s))) as [m|] eqn:E.
  - exfalso. unfold match_here in E. apply lit_match_prefix in E.
    apply prefix_take in E. rewrite length_key, <- key_take in E.
    change (String a (p ++ s)) with (String a p ++ s)%string in E.
    rewrite (take_append_take _ (Nat.pred (length w))) in E
      by (cbn [length]; lia).
    rewrite key_take in E. rewrite <- (length_key fl w) in E.
    apply take_prefix, contains_prefix in E. rewrite length_key in E.
    congruence.
  - apply IH. cbn [append] in H.
    unfold key in *. destruct (ignorecase fl); cbn [lower contains] in H;
      destruct (prefix _ _); (discriminate || exact H).
Qed.

End ReSteps.

(** ** A formatted reply is read back as written *)

Module FormatFacts.
Import PyStr PyInt Re ReSpec PyNum Main Cases MoreCases Format.
Import PyStrFacts ReFacts MainFacts ResumeIdFacts ReSteps.

Lemma rmatch_alt fl (r1 r2 : regex) (s : string) (m : captures)
  (k : string -> captures -> option captures) :
  rmatch fl (RAlt r1 r2) s m k
  = match rmatch fl r1 s m k with
    | Some x => Some x
    | None => rmatch fl r2 s m k
    end.
Proof. reflexivity. Qed.

Lemma readable_run lim (d : string) : readable lim d -> digit_run d.
Proof. intros (H1 & H2 & _). now split. Qed.

(** The score pattern, matched at the score block. *)
Lemma scores_at_block (d1 d2 d3 d4 : string) :
  digit_run d1 -> digit_run d2 -> digit_run d3 -> digit_run d4 ->
  match_here re_I scores_re (score_block d1 d2 d3 d4)
  = Some [(4%nat, d4); (3%nat, d3); (2%nat, d2); (1%nat, d1)].
Proof.
  intros H1 H2 H3 H4.
  change (score_block d1 d2 d3 d4)
    with ("Technical Depth:" ++ " " ++ d1 ++ "/100," ++ " "
          ++ "Communication:" ++ " " ++ d2 ++ "/100," ++ " "
          ++ "Problem-Solving:" ++ " " ++ d3 ++ "/100," ++ " "
          ++ "Total:" ++ " " ++ d4 ++ "/100" ++ ".")%string.
  unfold match_here, scores_re. cbn [seq].
  apply seq_lit.
  apply seq_spaces; [reflexivity | now apply stops_space_digits |].
  apply seq_digits; [assumption | reflexivity |].
  apply seq_lit. apply seq_spaces; [reflexivity | reflexivity |].
  apply seq_lit.
  apply seq_spaces; [reflexivity | now apply stops_space_digits |].
  apply seq_digits; [assumption | reflexivity |].
  apply seq_lit. apply seq_spaces; [reflexivity | reflexivity |].
  apply seq_lit.
  apply seq_spaces; [reflexivity | now apply stops_space_digits |].
  apply seq_digits; [assumption | reflexivity |].
  apply seq_lit. apply seq_spaces; [reflexivity | reflexivity |].
  apply seq_lit.
  apply seq_spaces; [reflexivity | now apply stops_space_digits |].
  apply seq_digits; [assumption | reflexivity |].
  apply seq_lit. reflexivity.
Qed.

Lemma strip_head (r : string) :
  strip r = r -> stops re_DOTALL CSpace r = true.
Proof.
  destruct r as [|a r]; [reflexivity|]. unfold strip. cbn [lstrip stops cmatch].
  destruct (isspace a) eqn:Ha; [|reflexivity].
  intros H. exfalso.
  assert (Hl : forall s, (length (lstrip s) <= length s)%nat).
  { induction s as [|c s IH]; cbn; [lia|]. destruct (isspace c); cbn; lia. }
  assert (Hr : forall s, (length (rstrip s) <= length s)%nat).
  { induction s as [|c s IH]; cbn; [lia|].
    destruct (rstrip s); [destruct (isspace c)|]; cbn in *; lia. }
  pose proof (Hr (lstrip r)). pose proof (Hl r).
  rewrite H in *. cbn [length] in *. lia.
Qed.

Lemma stops_append fl (c : cset) (r s : string) :
  stops fl c r = true -> stops fl c s = true -> stops fl c (r ++ s) = true.
Proof. destruct r; cbn; auto. Qed.

Lemma all_chars_any (r : string) : all_chars (cmatch re_DOTALL CAny) r = true.
Proof. induction r as [|a r IH]; cbn; [reflexivity | exact IH]. Qed.

Lemma lit_only_prefix fl (w t : string) (m m' : captures)
  (k : string -> captures -> option captures) :
  rmatch fl (lit w) t m k = Some m' ->
  prefix (key fl w) (key fl t) = true.
Proof.
  intros H. apply (lit_match_prefix fl w REps t m m' k). exact H.
Qed.

(** The reasons pattern, matched at the label. *)
Lemma reasons_at_label (rs rest : string) :
  strip rs = rs ->
  begins_within ". Score:" rs ". Score:" = false ->
  match_here re_DOTALL reasons_re ("Reasons: " ++ rs ++ ". Score:" ++ rest)
  = Some [(1%nat, rs)].
Proof.
  intros Hstrip Hin.
  change ("Reasons: " ++ rs ++ ". Score:" ++ rest)%string
    with ("Reasons:" ++ " " ++ rs ++ ". Score:" ++ rest)%string.
  unfold match_here, reasons_re. cbn [seq].
  apply seq_lit.
  apply seq_spaces;
    [reflexivity | apply stops_append; [now apply strip_head | reflexivity] |].
  rewrite rmatch_seq, rmatch_group.
  apply step_star_lazy; [apply all_chars_any | |].
  - intros r1 r2 -> Hne. cbv beta.
    rewrite rmatch_seq, rmatch_alt.
    match goal with
    | |- match ?X with _ => _ end = None => destruct X eqn:E
    end.
    + exfalso. apply lit_only_prefix in E. cbn [key ignorecase re_DOTALL] in E.
      apply prefix_take in E.
      rewrite (take_append_take _ 7) in E
        by (destruct r2; [now elim Hne | cbn [length]; lia]).
      change (take (length ". Score:") (r2 ++ ". Score") = ". Score:") in E.
      apply take_prefix, contains_prefix in E.
      apply (ParseFacts.contains_append_r _ r1) in E.
      change (contains ". Score:" ((r1 ++ r2) ++ ". Score") = false) in Hin.
      rewrite append_assoc in Hin. congruence.
    + destruct r2 as [|a [|b r2]]; [now elim Hne | reflexivity | reflexivity].
  - cbv beta. rewrite rmatch_seq, rmatch_alt, step_lit.
    cbn [rmatch]. now rewrite take_suffix_length.
Qed.

(** The decision pattern, matched at the start of a formatted reply. *)
Lemma decision_at_start (hired : bool) (rest : string) :
  match_here re_I decision_re
    ("Decision: " ++ verdict_text hired ++ "." ++ rest)
  = Some [(1%nat, verdict_text hired)].
Proof.
  change ("Decision: " ++ verdict_text hired ++ "." ++ rest)%string
    with ("Decision:" ++ " " ++ verdict_text hired ++ "." ++ rest)%string.
  unfold match_here, decision_re. cbn [seq].
  apply seq_lit.
  apply seq_spaces; [reflexivity | now destruct hired |].
  rewrite rmatch_seq, rmatch_group, rmatch_alt.
  destruct hired; cbn [verdict_text].
  - rewrite step_lit. cbv beta. rewrite take_suffix_length.
    rewrite (seq_lit re_I "." REps rest _ _ _ eq_refl). reflexivity.
  - match goal with
    | |- match ?X with _ => _ end = _ =>
        replace X with (@None captures) by reflexivity
    end.
    change ("Not Hired" ++ "." ++ rest)%string
      with ("Not" ++ " " ++ "Hired" ++ "." ++ rest)%string at 1.
    cbn [seq].
    apply seq_lit.
    apply seq_spaces; [reflexivity | reflexivity |].
    apply seq_lit. cbn [rmatch].
    change ("Not Hired" ++ "." ++ rest)%string
      with ("Not Hired" ++ ("." ++ rest))%string.
    rewrite take_suffix_length.
    apply (seq_lit re_I "." REps rest). reflexivity.
Qed.

Section Reply.

Variables (lim : nat) (hired : bool) (rs d1 d2 d3 d4 : string).

Hypothesis rs_stripped : strip rs = rs.
Hypothesis rs_no_delimiter : begins_within ". Score:" rs ". Score:" = false.
Hypothesis rs_no_label :
  begins_within "technical depth:" (lower rs) ". score: technical depth:"
  = false.
Hypothesis d1_readable : readable lim d1.
Hypothesis d2_readable : readable lim d2.
Hypothesis d3_readable : readable lim d3.
Hypothesis d4_readable : readable lim d4.

Lemma status_of_formatted :
  extract_status (formatted hired rs d1 d2 d3 d4) = Ok (verdict_status hired).
Proof.
  unfold extract_status.
  assert (E : search re_I decision_re (formatted hired rs d1 d2 d3 d4)
              = Some [(1%nat, verdict_text hired)]).
  { apply search_here.
    exact (decision_at_start hired
             (" Reasons: " ++ rs ++ ". Score: " ++ score_block d1 d2 d3 d4)). }
  rewrite E. cbn [group Nat.eqb]. now destruct hired.
Qed.

Lemma reasons_of_formatted :
  extract_reasons (formatted hired rs d1 d2 d3 d4) = Ok rs.
Proof.
  unfold extract_reasons.
  assert (E : search re_DOTALL reasons_re (formatted hired rs d1 d2 d3 d4)
              = Some [(1%nat, rs)]).
  { transitivity
      (search re_DOTALL reasons_re
         ("Reasons: " ++ rs ++ ". Score:" ++ " " ++ score_block d1 d2 d3 d4)).
    - destruct hired; reflexivity.
    - apply search_here, reasons_at_label; assumption. }
  rewrite E. cbn [group Nat.eqb]. now rewrite rs_stripped.
Qed.

Lemma scores_found :
  search re_I scores_re (formatted hired rs d1 d2 d3 d4)
  = Some [(4%nat, d4); (3%nat, d3); (2%nat, d2); (1%nat, d1)].
Proof.
  transitivity
    (search re_I scores_re (rs ++ ". Score: " ++ score_block d1 d2 d3 d4)).
  { destruct hired; reflexivity. }
  unfold scores_re. cbn [seq].
  rewrite search_skip.
  - transitivity
      (search re_I scores_re (score_block d1 d2 d3 d4)); [reflexivity|].
    apply search_here, scores_at_block; eapply readable_run; eassumption.
  - unfold begins_within in rs_no_label. cbn [key ignorecase re_I].
    rewrite lower_append. exact rs_no_label.
Qed.

Lemma py_int_readable (d : string) :
  readable lim d -> py_int lim d = Ok (digits_value 0 d).
Proof.
  intros (Hne & Hd & Hl). unfold py_int.
  destruct d; [now elim Hne|]. now rewrite Hd, Hl.
Qed.

Lemma scores_of_formatted :
  extract_scores lim (formatted hired rs d1 d2 d3 d4)
  = Ok (Some (digits_value 0 d1, digits_value 0 d2,
              digits_value 0 d3, digits_value 0 d4)).
Proof.
  unfold extract_scores. rewrite scores_found.
  unfold group_int. cbn [group Nat.eqb].
  now rewrite !py_int_readable by assumption.
Qed.

Lemma formatted_triggers (question : string) :
  trigger (formatted hired rs d1 d2 d3 d4) question = true.
Proof. destruct hired; reflexivity. Qed.

End Reply.

End FormatFacts.

Import Format ReSteps FormatFacts.


